(** * QuantumVulnerableCrypto (sample_cpp.cpp): buffers around OpenSSL

    A shallow embedding of [src/Data/qvs_sample_files/sample_cpp.cpp].  The
    program is a sequence of calls into OpenSSL with some buffer handling of
    its own between them.  OpenSSL is no part of the repository, so the
    library is an interface ([OpenSSL]) whose operations act on an opaque
    library state; what the program itself does (integer conversions,
    [std::vector] construction and [resize], [std::copy], the order of the
    calls) is written out.  Facts the proofs need about the library are
    stated as contracts, each the promise of the library's manual page. *)

From Stdlib Require Import ZArith List Lia Bool String.
From Stdlib Require Import Init.Byte Strings.Byte.
Import ListNotations.

Local Open Scope Z_scope.

(** ** Machine integers (LP64: 32-bit [int], 64-bit [size_t]) *)

Module CInt.

(** Conversion to [size_t]: reduction modulo 2^64. *)
Definition to_size_t (z : Z) : Z := z mod 2 ^ 64.

(** Conversion to [unsigned int]: reduction modulo 2^32. *)
Definition to_uint (z : Z) : Z := z mod 2 ^ 32.

(** Conversion to [int]: two's complement on 32 bits. *)
Definition to_int (z : Z) : Z := (z + 2 ^ 31) mod 2 ^ 32 - 2 ^ 31.

(** The values an [int] and an [unsigned int] can hold. *)
Definition is_int (z : Z) : Prop := - 2 ^ 31 <= z < 2 ^ 31.
Definition is_uint (z : Z) : Prop := 0 <= z < 2 ^ 32.

End CInt.
Export CInt.

(** ** Byte buffers: [std::vector<unsigned char>] and [std::string] *)

Definition bytes : Type := list byte.

(** Exceptions the standard containers raise. *)
Inductive exn : Type :=
| length_error.

Module Vec.

(** [std::vector<unsigned char>::max_size()]: [PTRDIFF_MAX]. *)
Definition max_size : Z := 2 ^ 63 - 1.

Definition size (v : bytes) : Z := Z.of_nat (List.length v).

(** [std::vector<unsigned char> v(n, b)]: refused with [std::length_error]
    above [max_size], otherwise [n] copies of [b] (storage is taken to be
    there: [std::bad_alloc] is left out). *)
Definition make (n : Z) (b : byte) : exn + bytes :=
  if max_size <? n then inl length_error
  else inr (repeat b (Z.to_nat n)).

(** [v.resize(n)]: refused with [std::length_error] above [max_size];
    otherwise the first [n] elements are kept and, when [n] exceeds the
    size, value-initialised (zero) elements are appended. *)
Definition resize (v : bytes) (n : Z) : exn + bytes :=
  if max_size <? n then inl length_error
  else if n <=? size v then inr (firstn (Z.to_nat n) v)
  else inr (v ++ repeat x00 (Z.to_nat (n - size v))).

(** A write of [data] through a raw pointer [v.data() + off], and
    [std::copy(data.begin(), data.end(), v.begin() + off)]: the elements
    from [off] on are overwritten; the size of the vector is not
    touched, and what would fall behind its end is no part of it. *)
Definition write_at (off : nat) (data v : bytes) : bytes :=
  firstn off v ++ firstn (List.length v - off) data
    ++ skipn (off + List.length data) v.

End Vec.

(** ** The library *)

(** A handle ([RSA*], [BIGNUM*], [EC_KEY*]) is an address; 0 is [nullptr]. *)
Definition ptr : Type := Z.
Definition nullptr : ptr := 0.

(** Modelled from the spec: the header [openssl/aes.h] is not among the
    sources; the block size it defines is the 16 the specification's
    properties give for [AES_BLOCK_SIZE]. *)
Definition AES_BLOCK_SIZE : Z := 16.

(** The operations of OpenSSL the program calls, over the library's own
    state [World] (its random generator and the objects behind the handles).
    An operation that writes through an output pointer returns the bytes it
    wrote; [ECDSA_sign] also returns what it stored in [*siglen]. *)
Class OpenSSL : Type := {
  World : Type;
  AES_KEY : Type;
  (* header constants *)
  RSA_F4 : Z;
  RSA_PKCS1_PADDING : Z;
  AES_ENCRYPT : Z;
  AES_DECRYPT : Z;
  NID_X9_62_prime256v1 : Z;
  (* rsa.h, bn.h *)
  RSA_new : World -> ptr * World;
  BN_new : World -> ptr * World;
  BN_set_word : ptr -> Z -> World -> Z * World;
  RSA_generate_key_ex : ptr -> Z -> ptr -> ptr -> World -> Z * World;
  BN_free : ptr -> World -> World;
  RSA_size : ptr -> World -> Z;
  RSA_public_encrypt :
    Z -> bytes -> ptr -> Z -> World -> (Z * bytes) * World;
  RSA_free : ptr -> World -> World;
  (* rand.h *)
  RAND_bytes : Z -> World -> (Z * bytes) * World;
  (* aes.h *)
  AES_set_encrypt_key : bytes -> Z -> Z * AES_KEY;
  AES_set_decrypt_key : bytes -> Z -> Z * AES_KEY;
  AES_cbc_encrypt : bytes -> Z -> AES_KEY -> bytes -> Z -> bytes * bytes;
  (* ec.h, ecdsa.h *)
  EC_KEY_new_by_curve_name : Z -> World -> ptr * World;
  EC_KEY_generate_key : ptr -> World -> Z * World;
  ECDSA_size : ptr -> World -> Z;
  ECDSA_sign :
    Z -> bytes -> Z -> Z -> ptr -> World -> (Z * bytes * Z) * World;
  EC_KEY_free : ptr -> World -> World
}.

(** What the program does to the outside, in order: every library call with
    the handles it was given or returned, and every line written to
    [std::cout] (its text and the length printed). *)
Inductive event : Type :=
| EvRSA_new (r : ptr)
| EvBN_new (b : ptr)
| EvBN_set_word (b : ptr) (w : Z)
| EvRSA_generate_key_ex (r : ptr) (bits : Z) (e : ptr)
| EvBN_free (b : ptr)
| EvRSA_size (r : ptr)
| EvRSA_public_encrypt (r : ptr) (flen : Z)
| EvRSA_free (r : ptr)
| EvRAND_bytes (num : Z)
| EvAES_set_encrypt_key (bits : Z)
| EvAES_cbc_encrypt (len : Z) (enc : Z)
| EvEC_KEY_new_by_curve_name (k : ptr)
| EvEC_KEY_generate_key (k : ptr)
| EvECDSA_size (k : ptr)
| EvECDSA_sign (k : ptr) (dlen : Z)
| EvEC_KEY_free (k : ptr)
| EvCout (text : string) (n : Z).

(** The state a run threads: the library's state and the events so far. *)
Record State (W : Type) : Type := mkState {
  world : W;
  trace : list event
}.
Arguments mkState {W} world trace.
Arguments world {W} s.
Arguments trace {W} s.

(** A statement returns a value or throws; both leave a state. *)
Inductive result (W A : Type) : Type :=
| Ok (a : A) (s : State W)
| Throw (e : exn) (s : State W).
Arguments Ok {W A} a s.
Arguments Throw {W A} e s.

(** ** The program *)

Section Program.

Context {L : OpenSSL}.

Definition M (A : Type) : Type := State World -> result World A.

Definition ret {A} (a : A) : M A := fun s => Ok a s.

Definition bind {A B} (m : M A) (k : A -> M B) : M B :=
  fun s => match m s with
           | Ok a s' => k a s'
           | Throw e s' => Throw e s'
           end.

(** A container operation, which may throw. *)
Definition lift {A} (r : exn + A) : M A :=
  fun s => match r with
           | inl e => Throw e s
           | inr a => Ok a s
           end.

(** A library call: it acts on the library's state and is logged. *)
Definition call {A} (f : World -> A * World) (ev : A -> event) : M A :=
  fun s => let '(a, w) := f (world s) in
           Ok a (mkState w (trace s ++ [ev a])).

(** A step that leaves the library's state alone (a call of a library
    function that has none, output to [std::cout]). *)
Definition emit (ev : event) : M unit :=
  fun s => Ok tt (mkState (world s) (trace s ++ [ev])).

Notation "x <- m ;; k" := (bind m (fun x => k))
  (at level 61, m at next level, right associativity).
Notation "m ;;; k" := (bind m (fun _ => k))
  (at level 61, right associativity).

(** [generateRSAKeys] (lines 15-27). *)
Definition generateRSAKeys : M ptr :=
  rsa <- call RSA_new EvRSA_new ;;
  bne <- call BN_new EvBN_new ;;
  call (BN_set_word bne RSA_F4) (fun _ => EvBN_set_word bne RSA_F4) ;;;
  call (RSA_generate_key_ex rsa 2048 bne nullptr)
       (fun _ => EvRSA_generate_key_ex rsa 2048 bne) ;;;
  call (fun w => (tt, BN_free bne w)) (fun _ => EvBN_free bne) ;;;
  ret rsa.

(** [encryptRSA] (lines 30-42).  [RSA_size] returns an [int], which the
    vector's constructor takes as a [size_t]; [message.length()] is passed
    as an [int]; the [int] the encryption returns is what [resize] takes
    as a [size_t]. *)
Definition encryptRSA (rsa : ptr) (message : bytes) : M bytes :=
  n <- call (fun w => (RSA_size rsa w, w)) (fun _ => EvRSA_size rsa) ;;
  encrypted <- lift (Vec.make (to_size_t n) x00) ;;
  let flen := to_int (Vec.size message) in
  r <- call (RSA_public_encrypt flen message rsa RSA_PKCS1_PADDING)
            (fun _ => EvRSA_public_encrypt rsa flen) ;;
  let '(encryptedLength, written) := r in
  let encrypted := Vec.write_at 0 written encrypted in
  encrypted <- lift (Vec.resize encrypted (to_size_t encryptedLength)) ;;
  ret encrypted.

(** [generateAES128Key] (lines 45-49). *)
Definition generateAES128Key : M bytes :=
  key <- lift (Vec.make 16 x00) ;;
  let num := to_int (Vec.size key) in
  r <- call (RAND_bytes num) (fun _ => EvRAND_bytes num) ;;
  ret (Vec.write_at 0 (snd r) key).

(** [paddedLength] of line 61, in [size_t] arithmetic. *)
Definition paddedLength (len : Z) : Z :=
  to_size_t (to_size_t (len / AES_BLOCK_SIZE + 1) * AES_BLOCK_SIZE).

(** [encryptAES] (lines 52-84).  The initialization vector is copied into
    [output] before [AES_cbc_encrypt] runs, which updates its own [ivec]
    argument (the local [iv]) in place; that update is dropped with the
    local.  [AES_set_encrypt_key] is handed [key.data()] and reads the 16
    bytes of a 128-bit key from it: the key of the model is the vector's
    content, which is what the library reads when the vector holds 16
    bytes, as the keys of [generateAES128Key] do. *)
Definition encryptAES (key message : bytes) : M bytes :=
  iv <- lift (Vec.make AES_BLOCK_SIZE x00) ;;
  let num := to_int (Vec.size iv) in
  r <- call (RAND_bytes num) (fun _ => EvRAND_bytes num) ;;
  let iv := Vec.write_at 0 (snd r) iv in
  let padded := paddedLength (Vec.size message) in
  output <- lift (Vec.make (to_size_t (Vec.size iv + padded)) x00) ;;
  let output := Vec.write_at 0 iv output in
  paddedMessage <- lift (Vec.make padded x00) ;;
  let paddedMessage := Vec.write_at 0 message paddedMessage in
  emit (EvAES_set_encrypt_key 128) ;;;
  let aesKey := snd (AES_set_encrypt_key key 128) in
  emit (EvAES_cbc_encrypt padded AES_ENCRYPT) ;;;
  let c := AES_cbc_encrypt paddedMessage padded aesKey iv AES_ENCRYPT in
  let output := Vec.write_at (List.length iv) (fst c) output in
  ret output.

(** [generateECCKeys] (lines 87-91). *)
Definition generateECCKeys : M ptr :=
  key <- call (EC_KEY_new_by_curve_name NID_X9_62_prime256v1)
              EvEC_KEY_new_by_curve_name ;;
  call (EC_KEY_generate_key key) (fun _ => EvEC_KEY_generate_key key) ;;;
  ret key.

(** [signECC] (lines 94-112).  [sigLen] is an [unsigned int]: it starts as
    the [int] [ECDSA_size] returns and is overwritten through the pointer
    handed to [ECDSA_sign], whose own return value is dropped. *)
Definition signECC (key : ptr) (data : bytes) : M bytes :=
  n <- call (fun w => (ECDSA_size key w, w)) (fun _ => EvECDSA_size key) ;;
  let sigLen := to_uint n in
  signature <- lift (Vec.make sigLen x00) ;;
  let dlen := to_int (Vec.size data) in
  r <- call (ECDSA_sign 0 data dlen sigLen key)
            (fun _ => EvECDSA_sign key dlen) ;;
  let '(_, written, sigLen) := r in
  let signature := Vec.write_at 0 written signature in
  signature <- lift (Vec.resize signature sigLen) ;;
  ret signature.

(** [main] (lines 115-140). *)
Definition main : M Z :=
  rsaKey <- generateRSAKeys ;;
  let message := list_byte_of_string "Secret message for RSA encryption" in
  encrypted <- encryptRSA rsaKey message ;;
  emit (EvCout "RSA encrypted data (length: " (Vec.size encrypted)) ;;;
  aesKey <- generateAES128Key ;;
  let message := list_byte_of_string "Secret message for AES encryption" in
  encryptedAes <- encryptAES aesKey message ;;
  emit (EvCout "AES encrypted data (length: " (Vec.size encryptedAes)) ;;;
  eccKey <- generateECCKeys ;;
  let data := list_byte_of_string "Message for ECC signing" in
  let dataBytes := data in
  signature <- signECC eccKey dataBytes ;;
  emit (EvCout "ECC signature created (length: " (Vec.size signature)) ;;;
  call (fun w => (tt, RSA_free rsaKey w)) (fun _ => EvRSA_free rsaKey) ;;;
  call (fun w => (tt, EC_KEY_free eccKey w)) (fun _ => EvEC_KEY_free eccKey) ;;;
  ret 0.

End Program.

(** ** What the library promises *)

Section Contracts.

Context {L : OpenSSL}.

(** The library keeps to its prototypes: what it returns as an [int] is an
    [int], and what [ECDSA_sign] stores through [unsigned int *siglen] is an
    [unsigned int]. *)
Record Typed : Prop := {
  RSA_size_int : forall r w, is_int (RSA_size r w);
  RSA_public_encrypt_int :
    forall flen m r p w, is_int (fst (fst (RSA_public_encrypt flen m r p w)));
  ECDSA_size_int : forall k w, is_int (ECDSA_size k w);
  ECDSA_sign_uint :
    forall t d dlen sl k w, is_uint (snd (fst (ECDSA_sign t d dlen sl k w)))
}.

(** RSA_size(3), RSA_public_encrypt(3), RSA_generate_key_ex(3): the size of
    a key is a byte count, that of its modulus; a successful encryption
    returns that size and a failed one -1; freeing a [BIGNUM] leaves keys
    alone. *)
Record RSA_contract : Prop := {
  RSA_size_nonneg : forall r w, 0 <= RSA_size r w;
  RSA_public_encrypt_returns :
    forall flen m r p w,
      fst (fst (RSA_public_encrypt flen m r p w)) = -1 \/
      fst (fst (RSA_public_encrypt flen m r p w)) = RSA_size r w;
  RSA_generate_key_ex_size :
    forall r bits e cb w,
      fst (RSA_generate_key_ex r bits e cb w) = 1 ->
      RSA_size r (snd (RSA_generate_key_ex r bits e cb w)) = (bits + 7) / 8;
  BN_free_keeps_size : forall b r w, RSA_size r (BN_free b w) = RSA_size r w
}.

(** AES_cbc_encrypt: on whole blocks it writes as many bytes as it reads. *)
Definition AES_cbc_contract : Prop :=
  forall inp len ks iv enc,
    Vec.size inp = len -> len mod AES_BLOCK_SIZE = 0 ->
    Vec.size (fst (AES_cbc_encrypt inp len ks iv enc)) = len.

(** AES_cbc_encrypt with [AES_DECRYPT], the decryption key schedule of the
    same 128-bit key and the same initialization vector undoes
    [AES_ENCRYPT] on whole blocks. *)
Definition AES_cbc_inverse : Prop :=
  forall key iv p,
    Vec.size key = 16 -> Vec.size iv = AES_BLOCK_SIZE ->
    Vec.size p mod AES_BLOCK_SIZE = 0 ->
    fst (AES_cbc_encrypt
           (fst (AES_cbc_encrypt p (Vec.size p)
                   (snd (AES_set_encrypt_key key 128)) iv AES_ENCRYPT))
           (Vec.size p) (snd (AES_set_decrypt_key key 128)) iv AES_DECRYPT)
    = p.

(** ECDSA_size(3): the most bytes a signature under the key takes; what
    [ECDSA_sign] stores in [*siglen] never exceeds it. *)
Record ECDSA_contract : Prop := {
  ECDSA_size_nonneg : forall k w, 0 <= ECDSA_size k w;
  ECDSA_sign_siglen :
    forall t d dlen sl k w,
      snd (fst (ECDSA_sign t d dlen sl k w)) <= ECDSA_size k w
}.

(** *** Names for what a run meets *)

(** The initialization vector [encryptAES] draws in state [s]: the 16-byte
    vector [iv] after [RAND_bytes] wrote into it. *)
Definition fresh_iv (s : State World) : bytes :=
  Vec.write_at 0 (snd (fst (RAND_bytes 16 (world s))))
    (repeat x00 (Z.to_nat AES_BLOCK_SIZE)).

(** The state [encryptAES] leaves. *)
Definition after_encryptAES (message : bytes) (s : State World)
  : State World :=
  mkState (snd (RAND_bytes 16 (world s)))
    (trace s ++ [EvRAND_bytes 16; EvAES_set_encrypt_key 128;
                 EvAES_cbc_encrypt (paddedLength (Vec.size message))
                   AES_ENCRYPT]).

(** The number of zero bytes after the message in [paddedMessage]. *)
Definition padding (message : bytes) : nat :=
  Z.to_nat (paddedLength (Vec.size message) - Vec.size message).

(** The AES-128-CBC encryption of [p] under [key] and [iv], as the library
    computes it. *)
Definition aes128_cbc_encrypt (key iv p : bytes) : bytes :=
  fst (AES_cbc_encrypt p (Vec.size p) (snd (AES_set_encrypt_key key 128))
         iv AES_ENCRYPT).

(** The AES-128-CBC decryption of [c] under [key] and [iv], as the library
    computes it. *)
Definition aes128_cbc_decrypt (key iv c : bytes) : bytes :=
  fst (AES_cbc_encrypt c (Vec.size c) (snd (AES_set_decrypt_key key 128))
         iv AES_DECRYPT).

(** A message [encryptAES] can hold next to its padded copy and the output:
    [iv.size() + paddedLength] is at most [max_size]. *)
Definition fits (message : bytes) : Prop :=
  Vec.size message < 2 ^ 63 - 32.

(** What [RSA_public_encrypt] returns when [encryptRSA] runs in [s]. *)
Definition encryptedLength (rsa : ptr) (message : bytes) (s : State World)
  : Z :=
  fst (fst (RSA_public_encrypt (to_int (Vec.size message)) message rsa
              RSA_PKCS1_PADDING (world s))).

(** What it wrote to the buffer, and the states [encryptRSA] leaves: after
    [RSA_size] when the vector cannot be built, after the encryption
    otherwise. *)
Definition RSA_written (rsa : ptr) (message : bytes) (s : State World)
  : bytes :=
  snd (fst (RSA_public_encrypt (to_int (Vec.size message)) message rsa
              RSA_PKCS1_PADDING (world s))).

Definition after_RSA_size (rsa : ptr) (s : State World) : State World :=
  mkState (world s) (trace s ++ [EvRSA_size rsa]).

Definition after_RSA_public_encrypt (rsa : ptr) (message : bytes)
  (s : State World) : State World :=
  mkState
    (snd (RSA_public_encrypt (to_int (Vec.size message)) message rsa
            RSA_PKCS1_PADDING (world s)))
    (trace s ++ [EvRSA_size rsa;
                 EvRSA_public_encrypt rsa (to_int (Vec.size message))]).

(** What [ECDSA_sign] stores in [sigLen] when [signECC] runs in [s]. *)
Definition stored_sigLen (key : ptr) (data : bytes) (s : State World) : Z :=
  snd (fst (ECDSA_sign 0 data (to_int (Vec.size data))
              (to_uint (ECDSA_size key (world s))) key (world s))).

(** What it wrote to the buffer, and the state [signECC] leaves. *)
Definition ECDSA_written (key : ptr) (data : bytes) (s : State World)
  : bytes :=
  snd (fst (fst (ECDSA_sign 0 data (to_int (Vec.size data))
                   (to_uint (ECDSA_size key (world s))) key (world s)))).

Definition after_ECDSA_sign (key : ptr) (data : bytes) (s : State World)
  : State World :=
  mkState
    (snd (ECDSA_sign 0 data (to_int (Vec.size data))
            (to_uint (ECDSA_size key (world s))) key (world s)))
    (trace s ++ [EvECDSA_size key;
                 EvECDSA_sign key (to_int (Vec.size data))]).

(** What [RSA_generate_key_ex] returns when [generateRSAKeys] runs in [s]. *)
Definition keygen_code (s : State World) : Z :=
  let (rsa, w1) := RSA_new (world s) in
  let (bne, w2) := BN_new w1 in
  let (_, w3) := BN_set_word bne RSA_F4 w2 in
  fst (RSA_generate_key_ex rsa 2048 bne nullptr w3).

(** The events of a run of [main] that returns: [rsa], [bne] and [ecc] are
    the handles the library gave out, [n1] and [n3] the lengths printed for
    the ciphertext of [encryptRSA] and for the signature. *)
Definition main_events (rsa bne ecc : ptr) (n1 n3 : Z) : list event :=
  [ EvRSA_new rsa; EvBN_new bne; EvBN_set_word bne RSA_F4;
    EvRSA_generate_key_ex rsa 2048 bne; EvBN_free bne;
    EvRSA_size rsa; EvRSA_public_encrypt rsa 33;
    EvCout "RSA encrypted data (length: " n1;
    EvRAND_bytes 16;
    EvRAND_bytes 16; EvAES_set_encrypt_key 128;
    EvAES_cbc_encrypt 48 AES_ENCRYPT;
    EvCout "AES encrypted data (length: " 64;
    EvEC_KEY_new_by_curve_name ecc; EvEC_KEY_generate_key ecc;
    EvECDSA_size ecc; EvECDSA_sign ecc 23;
    EvCout "ECC signature created (length: " n3;
    EvRSA_free rsa; EvEC_KEY_free ecc ].

End Contracts.

(** The events that release a key handle, and those that create one. *)
Definition is_release (ev : event) : bool :=
  match ev with
  | EvRSA_free _ | EvEC_KEY_free _ => true
  | _ => false
  end.

Definition is_create (ev : event) : bool :=
  match ev with
  | EvRSA_new _ | EvEC_KEY_new_by_curve_name _ => true
  | _ => false
  end.

(** The library [L] with the status [ECDSA_sign] returns replaced by
    [code]; all else, the signature and the stored length too, is as in
    [L]. *)
Definition with_ECDSA_sign_status (L : OpenSSL)
  (code : Z -> bytes -> Z -> Z -> ptr -> @World L -> Z) : OpenSSL :=
  {| World := @World L;
     AES_KEY := @AES_KEY L;
     RSA_F4 := @RSA_F4 L;
     RSA_PKCS1_PADDING := @RSA_PKCS1_PADDING L;
     AES_ENCRYPT := @AES_ENCRYPT L;
     AES_DECRYPT := @AES_DECRYPT L;
     NID_X9_62_prime256v1 := @NID_X9_62_prime256v1 L;
     RSA_new := @RSA_new L;
     BN_new := @BN_new L;
     BN_set_word := @BN_set_word L;
     RSA_generate_key_ex := @RSA_generate_key_ex L;
     BN_free := @BN_free L;
     RSA_size := @RSA_size L;
     RSA_public_encrypt := @RSA_public_encrypt L;
     RSA_free := @RSA_free L;
     RAND_bytes := @RAND_bytes L;
     AES_set_encrypt_key := @AES_set_encrypt_key L;
     AES_set_decrypt_key := @AES_set_decrypt_key L;
     AES_cbc_encrypt := @AES_cbc_encrypt L;
     EC_KEY_new_by_curve_name := @EC_KEY_new_by_curve_name L;
     EC_KEY_generate_key := @EC_KEY_generate_key L;
     ECDSA_size := @ECDSA_size L;
     ECDSA_sign := fun t d dlen sl k w =>
       let r := @ECDSA_sign L t d dlen sl k w in
       ((code t d dlen sl k w, snd (fst (fst r)), snd (fst r)), snd r);
     EC_KEY_free := @EC_KEY_free L |}.

(** ** A small executable library

    An instance of the interface that can be run: handles are counted up
    from 1, random bytes come from a linear congruential generator, an RSA
    key records the bit length it was generated with and encryption refuses
    a message longer than the modulus minus the 11 bytes of PKCS#1 padding,
    the block cipher is a byte-wise exclusive or with the key, chained as
    CBC chains, and a signature takes 71 of the 72 bytes [ECDSA_size]
    announces. *)

Module Ref.

Definition byte_of_N (n : N) : byte :=
  match Byte.of_N n with
  | Some b => b
  | None => x00
  end.

Definition byte_xor (a b : byte) : byte :=
  byte_of_N (N.lxor (Byte.to_N a) (Byte.to_N b)).

(** Exclusive or of a block with a mask; a mask that runs out counts as
    zeros. *)
Fixpoint xor_block (a b : bytes) : bytes :=
  match a, b with
  | [], _ => []
  | x :: a', [] => x :: xor_block a' []
  | x :: a', y :: b' => byte_xor x y :: xor_block a' b'
  end.

Record lib_state : Type := mkWorld {
  next : ptr;
  seed : Z;
  rsa_bits : list (ptr * Z)
}.

Definition fresh (w : lib_state) : ptr * lib_state :=
  (next w, mkWorld (next w + 1) (seed w) (rsa_bits w)).

Fixpoint lookup (r : ptr) (l : list (ptr * Z)) : option Z :=
  match l with
  | [] => None
  | (r', bits) :: l' => if r =? r' then Some bits else lookup r l'
  end.

Definition rsa_size (r : ptr) (w : lib_state) : Z :=
  match lookup r (rsa_bits w) with
  | Some bits => (bits mod 2 ^ 16 + 7) / 8
  | None => 0
  end.

Definition rsa_generate (r : ptr) (bits : Z) (e cb : ptr) (w : lib_state)
  : Z * lib_state :=
  if (0 <? bits) && (bits <? 2 ^ 16)
  then (1, mkWorld (next w) (seed w) ((r, bits) :: rsa_bits w))
  else (0, w).

Definition rsa_encrypt (flen : Z) (from : bytes) (r : ptr) (pad : Z)
  (w : lib_state) : (Z * bytes) * lib_state :=
  let k := rsa_size r w in
  if (0 <=? flen) && (flen <=? k - 11)
  then ((k, firstn (Z.to_nat k) (from ++ repeat x00 (Z.to_nat k))), w)
  else ((-1, []), w).

Fixpoint lcg (n : nat) (x : Z) : bytes * Z :=
  match n with
  | O => ([], x)
  | S n' =>
      let x' := (x * 1103515245 + 12345) mod 2 ^ 31 in
      let r := lcg n' x' in
      (byte_of_N (Z.to_N (x' / 65536 mod 256)) :: fst r, snd r)
  end.

Definition rand_bytes (num : Z) (w : lib_state) : (Z * bytes) * lib_state :=
  let r := lcg (Z.to_nat num) (seed w) in
  ((1, fst r), mkWorld (next w) (snd r) (rsa_bits w)).

Definition set_key (key : bytes) (bits : Z) : Z * bytes :=
  (0, firstn (Z.to_nat (bits / 8)) key).

Fixpoint cbc_enc (n : nat) (k iv inp : bytes) : bytes * bytes :=
  match n with
  | O => ([], iv)
  | S n' =>
      let c := xor_block (xor_block (firstn 16 inp) iv) k in
      let r := cbc_enc n' k c (skipn 16 inp) in
      (c ++ fst r, snd r)
  end.

Fixpoint cbc_dec (n : nat) (k iv inp : bytes) : bytes * bytes :=
  match n with
  | O => ([], iv)
  | S n' =>
      let c := firstn 16 inp in
      let r := cbc_dec n' k c (skipn 16 inp) in
      (xor_block (xor_block c k) iv ++ fst r, snd r)
  end.

Definition cbc (inp : bytes) (len : Z) (k iv : bytes) (enc : Z)
  : bytes * bytes :=
  if enc =? 1 then cbc_enc (Z.to_nat (len / 16)) k iv inp
  else cbc_dec (Z.to_nat (len / 16)) k iv inp.

Definition ecdsa_sign (t : Z) (dgst : bytes) (dlen sl : Z) (k : ptr)
  (w : lib_state) : (Z * bytes * Z) * lib_state :=
  let r := lcg 71 (seed w) in
  ((1, fst r, 71), mkWorld (next w) (snd r) (rsa_bits w)).

Definition lib : OpenSSL :=
  {| World := lib_state;
     AES_KEY := bytes;
     RSA_F4 := 65537;
     RSA_PKCS1_PADDING := 1;
     AES_ENCRYPT := 1;
     AES_DECRYPT := 0;
     NID_X9_62_prime256v1 := 415;
     RSA_new := fresh;
     BN_new := fresh;
     BN_set_word := fun _ _ w => (1, w);
     RSA_generate_key_ex := rsa_generate;
     BN_free := fun _ w => w;
     RSA_size := rsa_size;
     RSA_public_encrypt := rsa_encrypt;
     RSA_free := fun _ w => w;
     RAND_bytes := rand_bytes;
     AES_set_encrypt_key := set_key;
     AES_set_decrypt_key := set_key;
     AES_cbc_encrypt := cbc;
     EC_KEY_new_by_curve_name := fun _ w => fresh w;
     EC_KEY_generate_key := fun _ w => (1, w);
     ECDSA_size := fun _ _ => 72;
     ECDSA_sign := ecdsa_sign;
     EC_KEY_free := fun _ w => w |}.

(** A state to start from, and one in which handle 1 is a 2048-bit key. *)
Definition s0 : State lib_state := mkState (mkWorld 1 2024 []) [].
Definition s1 : State lib_state := mkState (mkWorld 3 7 [(1, 2048)]) [].

(** A 300-byte message: more than a 2048-bit key encrypts in one block. *)
Definition long_message : bytes := repeat x41 300.

Definition hello : bytes := list_byte_of_string "attack at dawn".
Definition key0 : bytes := list_byte_of_string "0123456789abcdef".

End Ref.

(** ** Variations of a library *)

(** The statuses the program drops: what [BN_set_word],
    [RSA_generate_key_ex], [RAND_bytes], [AES_set_encrypt_key],
    [EC_KEY_generate_key] and [ECDSA_sign] return as their [int]. *)
Record Statuses (W : Type) : Type := mkStatuses {
  st_BN_set_word : ptr -> Z -> W -> Z;
  st_RSA_generate_key_ex : ptr -> Z -> ptr -> ptr -> W -> Z;
  st_RAND_bytes : Z -> W -> Z;
  st_AES_set_encrypt_key : bytes -> Z -> Z;
  st_EC_KEY_generate_key : ptr -> W -> Z;
  st_ECDSA_sign : Z -> bytes -> Z -> Z -> ptr -> W -> Z
}.
Arguments st_BN_set_word {W} c b v w : rename.
Arguments st_RSA_generate_key_ex {W} c r bits e cb w : rename.
Arguments st_RAND_bytes {W} c num w : rename.
Arguments st_AES_set_encrypt_key {W} c key bits : rename.
Arguments st_EC_KEY_generate_key {W} c k w : rename.
Arguments st_ECDSA_sign {W} c t d dlen sl k w : rename.

(** The library [L] returning the statuses of [c] in place of its own;
    what it writes, stores and does to its state is as in [L]. *)
Definition with_statuses (L : OpenSSL) (c : Statuses (@World L)) : OpenSSL :=
  {| World := @World L;
     AES_KEY := @AES_KEY L;
     RSA_F4 := @RSA_F4 L;
     RSA_PKCS1_PADDING := @RSA_PKCS1_PADDING L;
     AES_ENCRYPT := @AES_ENCRYPT L;
     AES_DECRYPT := @AES_DECRYPT L;
     NID_X9_62_prime256v1 := @NID_X9_62_prime256v1 L;
     RSA_new := @RSA_new L;
     BN_new := @BN_new L;
     BN_set_word := fun b v w =>
       (st_BN_set_word c b v w, snd (@BN_set_word L b v w));
     RSA_generate_key_ex := fun r bits e cb w =>
       (st_RSA_generate_key_ex c r bits e cb w,
        snd (@RSA_generate_key_ex L r bits e cb w));
     BN_free := @BN_free L;
     RSA_size := @RSA_size L;
     RSA_public_encrypt := @RSA_public_encrypt L;
     RSA_free := @RSA_free L;
     RAND_bytes := fun num w =>
       ((st_RAND_bytes c num w, snd (fst (@RAND_bytes L num w))),
        snd (@RAND_bytes L num w));
     AES_set_encrypt_key := fun key bits =>
       (st_AES_set_encrypt_key c key bits,
        snd (@AES_set_encrypt_key L key bits));
     AES_set_decrypt_key := @AES_set_decrypt_key L;
     AES_cbc_encrypt := @AES_cbc_encrypt L;
     EC_KEY_new_by_curve_name := @EC_KEY_new_by_curve_name L;
     EC_KEY_generate_key := fun k w =>
       (st_EC_KEY_generate_key c k w, snd (@EC_KEY_generate_key L k w));
     ECDSA_size := @ECDSA_size L;
     ECDSA_sign := fun t d dlen sl k w =>
       ((st_ECDSA_sign c t d dlen sl k w,
         snd (fst (fst (@ECDSA_sign L t d dlen sl k w))),
         snd (fst (@ECDSA_sign L t d dlen sl k w))),
        snd (@ECDSA_sign L t d dlen sl k w));
     EC_KEY_free := @EC_KEY_free L |}.

(** The state after a line of output. *)
Definition printed {W : Type} (text : string) (n : Z) (s : State W)
  : State W :=
  mkState (world s) (trace s ++ [EvCout text n]).

(** The library [L] with another [RSA_public_encrypt]. *)
Definition with_RSA_public_encrypt (L : OpenSSL)
  (f : Z -> bytes -> ptr -> Z -> @World L -> (Z * bytes) * @World L)
  : OpenSSL :=
  {| World := @World L;
     AES_KEY := @AES_KEY L;
     RSA_F4 := @RSA_F4 L;
     RSA_PKCS1_PADDING := @RSA_PKCS1_PADDING L;
     AES_ENCRYPT := @AES_ENCRYPT L;
     AES_DECRYPT := @AES_DECRYPT L;
     NID_X9_62_prime256v1 := @NID_X9_62_prime256v1 L;
     RSA_new := @RSA_new L;
     BN_new := @BN_new L;
     BN_set_word := @BN_set_word L;
     RSA_generate_key_ex := @RSA_generate_key_ex L;
     BN_free := @BN_free L;
     RSA_size := @RSA_size L;
     RSA_public_encrypt := f;
     RSA_free := @RSA_free L;
     RAND_bytes := @RAND_bytes L;
     AES_set_encrypt_key := @AES_set_encrypt_key L;
     AES_set_decrypt_key := @AES_set_decrypt_key L;
     AES_cbc_encrypt := @AES_cbc_encrypt L;
     EC_KEY_new_by_curve_name := @EC_KEY_new_by_curve_name L;
     EC_KEY_generate_key := @EC_KEY_generate_key L;
     ECDSA_size := @ECDSA_size L;
     ECDSA_sign := @ECDSA_sign L;
     EC_KEY_free := @EC_KEY_free L |}.

(** The executable library with an encryption that always fails. *)
Definition refusing : OpenSSL :=
  with_RSA_public_encrypt Ref.lib (fun _ _ _ _ w => ((-1, []), w)).

(** ** Integers and buffers *)

Lemma to_size_t_small (z : Z) : 0 <= z < 2 ^ 64 -> to_size_t z = z.
Proof. intros H. unfold to_size_t. now apply Z.mod_small. Qed.

Lemma to_size_t_negative (z : Z) :
  is_int z -> z < 0 -> to_size_t z = 2 ^ 64 + z /\ Vec.max_size < to_size_t z.
Proof.
  unfold is_int, to_size_t, Vec.max_size. intros H Hneg.
  assert (E : z mod 2 ^ 64 = 2 ^ 64 + z).
  { symmetry. apply Z.mod_unique with (q := -1); lia. }
  rewrite E. lia.
Qed.

Lemma to_size_t_of_int (z : Z) : is_int z -> 0 <= z -> to_size_t z = z.
Proof. unfold is_int. intros H H0. apply to_size_t_small. lia. Qed.

Lemma to_uint_small (z : Z) : 0 <= z < 2 ^ 32 -> to_uint z = z.
Proof. intros H. unfold to_uint. now apply Z.mod_small. Qed.

Lemma to_uint_range (z : Z) : 0 <= to_uint z < 2 ^ 32.
Proof. unfold to_uint. apply Z.mod_pos_bound. lia. Qed.

Lemma paddedLength_exact (len : Z) :
  0 <= len < 2 ^ 63 - 32 ->
  paddedLength len = (len / AES_BLOCK_SIZE + 1) * AES_BLOCK_SIZE.
Proof.
  intros H. unfold paddedLength, AES_BLOCK_SIZE.
  assert (D : 0 <= len / 16 /\ len / 16 * 16 <= len)
    by (Z.to_euclidean_division_equations; lia).
  rewrite (to_size_t_small (len / 16 + 1)) by lia.
  apply to_size_t_small. lia.
Qed.

Lemma paddedLength_bounds (len : Z) :
  0 <= len < 2 ^ 63 - 32 ->
  len < paddedLength len <= len + 16 /\
  paddedLength len - len = 16 - len mod 16 /\
  paddedLength len mod AES_BLOCK_SIZE = 0.
Proof.
  intros H. rewrite (paddedLength_exact len H). unfold AES_BLOCK_SIZE.
  pose proof (Z.div_mod len 16 ltac:(lia)) as E.
  pose proof (Z.mod_pos_bound len 16 ltac:(lia)) as B.
  repeat split; try lia.
  apply Z.mod_mul. lia.
Qed.

Module VecFacts.

Lemma size_nonneg (v : bytes) : 0 <= Vec.size v.
Proof. unfold Vec.size. lia. Qed.

Lemma size_app (a b : bytes) : Vec.size (a ++ b) = Vec.size a + Vec.size b.
Proof. unfold Vec.size. rewrite length_app. lia. Qed.

Lemma size_repeat (b : byte) (n : nat) : Vec.size (repeat b n) = Z.of_nat n.
Proof. unfold Vec.size. now rewrite repeat_length. Qed.

Lemma make_ok (n : Z) (b : byte) :
  n <= Vec.max_size -> Vec.make n b = inr (repeat b (Z.to_nat n)).
Proof.
  intros H. unfold Vec.make.
  destruct (Z.ltb_spec Vec.max_size n); [lia | reflexivity].
Qed.

Lemma make_refused (n : Z) (b : byte) :
  Vec.max_size < n -> Vec.make n b = inl length_error.
Proof.
  intros H. unfold Vec.make.
  destruct (Z.ltb_spec Vec.max_size n); [reflexivity | lia].
Qed.

Lemma resize_refused (v : bytes) (n : Z) :
  Vec.max_size < n -> Vec.resize v n = inl length_error.
Proof.
  intros H. unfold Vec.resize.
  destruct (Z.ltb_spec Vec.max_size n); [reflexivity | lia].
Qed.

(** A [resize] that returns leaves a vector of the size asked for. *)
Lemma resize_size (v v' : bytes) (n : Z) :
  0 <= n -> Vec.resize v n = inr v' -> Vec.size v' = n.
Proof.
  intros Hn. unfold Vec.resize.
  destruct (Z.ltb_spec Vec.max_size n); [discriminate |].
  destruct (Z.leb_spec n (Vec.size v)); intros E; inversion E; subst v'.
  - unfold Vec.size in *. rewrite length_firstn. lia.
  - rewrite size_app, size_repeat. lia.
Qed.

Lemma resize_ok (v : bytes) (n : Z) :
  n <= Vec.max_size -> exists v', Vec.resize v n = inr v'.
Proof.
  intros H. unfold Vec.resize.
  destruct (Z.ltb_spec Vec.max_size n); [lia |].
  destruct (n <=? Vec.size v); eauto.
Qed.

(** A [resize] to at most the current size keeps a prefix. *)
Lemma resize_shrink (v : bytes) (n : Z) :
  n <= Vec.size v -> n <= Vec.max_size ->
  Vec.resize v n = inr (firstn (Z.to_nat n) v).
Proof.
  intros H Hm. unfold Vec.resize.
  destruct (Z.ltb_spec Vec.max_size n); [lia |].
  destruct (Z.leb_spec n (Vec.size v)); [reflexivity | lia].
Qed.

Lemma write_at_length (off : nat) (data v : bytes) :
  List.length (Vec.write_at off data v) = List.length v.
Proof.
  unfold Vec.write_at.
  rewrite !length_app, !length_firstn, length_skipn. lia.
Qed.

Lemma write_at_size (off : nat) (data v : bytes) :
  Vec.size (Vec.write_at off data v) = Vec.size v.
Proof. unfold Vec.size. now rewrite write_at_length. Qed.

Lemma skipn_repeat (b : byte) (n m : nat) :
  skipn n (repeat b m) = repeat b (m - n).
Proof.
  revert m. induction n as [| n IH]; intros m; simpl.
  - now rewrite Nat.sub_0_r.
  - destruct m; simpl; [reflexivity | apply IH].
Qed.

(** Copying [data] to the front of a buffer of [n] equal bytes. *)
Lemma write_at_front (data : bytes) (b : byte) (n : nat) :
  (List.length data <= n)%nat ->
  Vec.write_at 0 data (repeat b n) = data ++ repeat b (n - List.length data).
Proof.
  intros H. unfold Vec.write_at. simpl.
  rewrite repeat_length, Nat.sub_0_r, firstn_all2 by assumption.
  now rewrite skipn_repeat.
Qed.

(** Writing behind a prefix [a] exactly as many bytes as follow it. *)
Lemma write_at_behind (a data rest : bytes) :
  List.length data = List.length rest ->
  Vec.write_at (List.length a) data (a ++ rest) = a ++ data.
Proof.
  intros H. unfold Vec.write_at.
  rewrite firstn_app, firstn_all, Nat.sub_diag, firstn_O, app_nil_r.
  rewrite length_app.
  replace (List.length a + List.length rest - List.length a)%nat
    with (List.length data) by lia.
  rewrite firstn_all.
  rewrite skipn_all2 by (rewrite length_app; lia).
  now rewrite app_nil_r.
Qed.

End VecFacts.

(** ** Running the program

    Each function of the program, run from any state, in closed form. *)

Import VecFacts.

Section Runs.
Context {L : OpenSSL}.

Lemma run_call {A B} (f : World -> A * World) (ev : A -> event)
  (k : A -> M B) (s : State World) :
  bind (call f ev) k s =
  k (fst (f (world s)))
    (mkState (snd (f (world s))) (trace s ++ [ev (fst (f (world s)))])).
Proof. unfold bind, call. now destruct (f (world s)). Qed.

Lemma run_emit {B} (ev : event) (k : unit -> M B) (s : State World) :
  bind (emit ev) k s = k tt (mkState (world s) (trace s ++ [ev])).
Proof. reflexivity. Qed.

Lemma run_lift_ok {A B} (r : exn + A) (a : A) (k : A -> M B)
  (s : State World) :
  r = inr a -> bind (lift r) k s = k a s.
Proof. now intros ->. Qed.

Lemma run_lift_throw {A B} (r : exn + A) (e : exn) (k : A -> M B)
  (s : State World) :
  r = inl e -> bind (lift r) k s = Throw e s.
Proof. now intros ->. Qed.

Lemma fresh_iv_length (s : State World) : List.length (fresh_iv s) = 16%nat.
Proof. unfold fresh_iv. rewrite write_at_length. reflexivity. Qed.

Lemma encryptAES_run (key message : bytes) (s : State World) :
  fits message ->
  encryptAES key message s =
  Ok (Vec.write_at 16
        (aes128_cbc_encrypt key (fresh_iv s)
           (message ++ repeat x00 (padding message)))
        (fresh_iv s
           ++ repeat x00 (Z.to_nat (paddedLength (Vec.size message)))))
     (after_encryptAES message s).
Proof.
  intros Hfit. unfold fits in Hfit.
  pose proof (size_nonneg message) as H0.
  destruct (paddedLength_bounds (Vec.size message)) as (Hb & Hpad & Hmod);
    [lia |].
  unfold encryptAES.
  assert (M16 : AES_BLOCK_SIZE <= Vec.max_size) by (vm_compute; discriminate).
  rewrite (run_lift_ok _ _ _ _ (make_ok AES_BLOCK_SIZE x00 M16)).
  rewrite run_call. cbv zeta.
  change (to_int (Vec.size (repeat x00 (Z.to_nat AES_BLOCK_SIZE)))) with 16.
  fold (fresh_iv s).
  assert (Hiv : Vec.size (fresh_iv s) = 16)
    by (unfold Vec.size; now rewrite fresh_iv_length).
  set (p := paddedLength (Vec.size message)) in *.
  rewrite Hiv, (to_size_t_small (16 + p)) by lia.
  assert (Mout : 16 + p <= Vec.max_size) by (unfold Vec.max_size; lia).
  assert (Mpad : p <= Vec.max_size) by (unfold Vec.max_size; lia).
  rewrite (run_lift_ok _ _ _ _ (make_ok (16 + p) x00 Mout)).
  rewrite (run_lift_ok _ _ _ _ (make_ok p x00 Mpad)).
  rewrite !run_emit. unfold ret, after_encryptAES. fold p.
  simpl trace. simpl world.
  rewrite <- !app_assoc. simpl app.
  f_equal.
  rewrite fresh_iv_length.
  rewrite !write_at_front
    by (rewrite ?fresh_iv_length; unfold Vec.size in *; lia).
  rewrite fresh_iv_length.
  replace (Z.to_nat (16 + p) - 16)%nat with (Z.to_nat p) by lia.
  replace (Z.to_nat p - List.length message)%nat with (padding message)
    by (unfold padding; fold p; unfold Vec.size in *; lia).
  unfold aes128_cbc_encrypt.
  replace (Vec.size (message ++ repeat x00 (padding message))) with p
    by (rewrite size_app, size_repeat; unfold padding; fold p; lia).
  reflexivity.
Qed.

Lemma encryptRSA_run (rsa : ptr) (message : bytes) (s : State World) :
  encryptRSA rsa message s =
  match Vec.make (to_size_t (RSA_size rsa (world s))) x00 with
  | inl e => Throw e (after_RSA_size rsa s)
  | inr buf =>
      lift (Vec.resize (Vec.write_at 0 (RSA_written rsa message s) buf)
              (to_size_t (encryptedLength rsa message s)))
        (after_RSA_public_encrypt rsa message s)
  end.
Proof.
  unfold encryptRSA. rewrite run_call. cbn [fst snd world trace].
  fold (after_RSA_size rsa s).
  destruct (Vec.make (to_size_t (RSA_size rsa (world s))) x00) as [e | buf].
  - reflexivity.
  - erewrite run_lift_ok by reflexivity. cbv zeta.
    rewrite run_call. cbn [fst snd world trace after_RSA_size].
    unfold RSA_written, encryptedLength, after_RSA_public_encrypt.
    destruct (RSA_public_encrypt (to_int (Vec.size message)) message rsa
                RSA_PKCS1_PADDING (world s)) as [[len written] w].
    cbn [fst snd]. rewrite <- app_assoc. cbn [app].
    unfold bind, lift, ret.
    now destruct (Vec.resize (Vec.write_at 0 written buf) (to_size_t len)).
Qed.

Lemma signECC_run (key : ptr) (data : bytes) (s : State World) :
  signECC key data s =
  match Vec.make (to_uint (ECDSA_size key (world s))) x00 with
  | inl e => Throw e (mkState (world s) (trace s ++ [EvECDSA_size key]))
  | inr buf =>
      lift (Vec.resize (Vec.write_at 0 (ECDSA_written key data s) buf)
              (stored_sigLen key data s))
        (after_ECDSA_sign key data s)
  end.
Proof.
  unfold signECC. rewrite run_call. cbn [fst snd world trace]. cbv zeta.
  destruct (Vec.make (to_uint (ECDSA_size key (world s))) x00) as [e | buf].
  - reflexivity.
  - erewrite run_lift_ok by reflexivity.
    rewrite run_call. cbn [fst snd world trace].
    unfold ECDSA_written, stored_sigLen, after_ECDSA_sign.
    destruct (ECDSA_sign 0 data (to_int (Vec.size data))
                (to_uint (ECDSA_size key (world s))) key (world s))
      as [[[code written] len] w].
    cbn [fst snd]. rewrite <- app_assoc. cbn [app].
    unfold bind, lift, ret.
    now destruct (Vec.resize (Vec.write_at 0 written buf) len).
Qed.
End Runs.

(** ** The executable library keeps the promises *)

Module RefFacts.

Lemma byte_of_N_to_N (b : byte) : Ref.byte_of_N (Byte.to_N b) = b.
Proof. unfold Ref.byte_of_N. now rewrite Byte.of_to_N. Qed.

Lemma to_N_byte_of_N (n : N) : (n < 256)%N -> Byte.to_N (Ref.byte_of_N n) = n.
Proof.
  intros H. unfold Ref.byte_of_N.
  destruct (Byte.of_N n) as [b |] eqn:E.
  - now apply Byte.to_of_N.
  - apply Byte.of_N_None_iff in E. lia.
Qed.

Lemma lxor_byte_bound (a b : byte) :
  (N.lxor (Byte.to_N a) (Byte.to_N b) < 256)%N.
Proof.
  pose proof (Byte.to_N_bounded a) as Ha.
  pose proof (Byte.to_N_bounded b) as Hb.
  destruct (N.eq_dec (N.lxor (Byte.to_N a) (Byte.to_N b)) 0) as [-> | Hnz];
    [lia |].
  change 256%N with (2 ^ 8)%N.
  apply N.log2_lt_pow2; [lia |].
  eapply N.le_lt_trans; [apply N.log2_lxor |].
  apply N.max_lub_lt.
  - destruct (N.eq_dec (Byte.to_N a) 0) as [-> | Hz]; [reflexivity |].
    apply N.log2_lt_pow2; [lia |]. change (2 ^ 8)%N with 256%N. lia.
  - destruct (N.eq_dec (Byte.to_N b) 0) as [-> | Hz]; [reflexivity |].
    apply N.log2_lt_pow2; [lia |]. change (2 ^ 8)%N with 256%N. lia.
Qed.

Lemma byte_xor_involutive (a b : byte) :
  Ref.byte_xor (Ref.byte_xor a b) b = a.
Proof.
  unfold Ref.byte_xor.
  rewrite to_N_byte_of_N by apply lxor_byte_bound.
  rewrite N.lxor_assoc, N.lxor_nilpotent, N.lxor_0_r.
  apply byte_of_N_to_N.
Qed.

Lemma xor_block_length (a b : bytes) :
  List.length (Ref.xor_block a b) = List.length a.
Proof.
  revert b. induction a as [| x a IH]; intros [| y b]; simpl; auto.
Qed.

Lemma xor_block_involutive (a b : bytes) :
  Ref.xor_block (Ref.xor_block a b) b = a.
Proof.
  revert b. induction a as [| x a IH]; intros [| y b]; simpl;
    try rewrite byte_xor_involutive; try rewrite IH; reflexivity.
Qed.

Lemma cbc_enc_length (n : nat) (k iv inp : bytes) :
  List.length inp = (16 * n)%nat ->
  List.length (fst (Ref.cbc_enc n k iv inp)) = (16 * n)%nat.
Proof.
  revert iv inp. induction n as [| n IH]; intros iv inp H.
  - reflexivity.
  - cbn [Ref.cbc_enc Ref.cbc_dec fst].
    rewrite length_app, !xor_block_length, length_firstn.
    rewrite IH by (rewrite length_skipn; lia). lia.
Qed.

Lemma cbc_dec_length (n : nat) (k iv inp : bytes) :
  List.length inp = (16 * n)%nat ->
  List.length (fst (Ref.cbc_dec n k iv inp)) = (16 * n)%nat.
Proof.
  revert iv inp. induction n as [| n IH]; intros iv inp H.
  - reflexivity.
  - cbn [Ref.cbc_enc Ref.cbc_dec fst].
    rewrite length_app, !xor_block_length, length_firstn.
    rewrite IH by (rewrite length_skipn; lia). lia.
Qed.

Lemma split_block (c rest : bytes) :
  List.length c = 16%nat ->
  firstn 16 (c ++ rest) = c /\ skipn 16 (c ++ rest) = rest.
Proof.
  intros H. rewrite <- H. split.
  - rewrite firstn_app, Nat.sub_diag, firstn_all. apply app_nil_r.
  - now rewrite skipn_app, Nat.sub_diag, skipn_all.
Qed.

(** Decryption undoes encryption, block by block: the chaining value of a
    block is the ciphertext block before it on both sides. *)
Lemma cbc_dec_enc (n : nat) (k iv inp : bytes) :
  List.length inp = (16 * n)%nat ->
  fst (Ref.cbc_dec n k iv (fst (Ref.cbc_enc n k iv inp))) = inp.
Proof.
  revert iv inp. induction n as [| n IH]; intros iv inp H.
  - destruct inp; [reflexivity | discriminate].
  - cbn [Ref.cbc_enc Ref.cbc_dec fst].
    set (c := Ref.xor_block (Ref.xor_block (firstn 16 inp) iv) k).
    assert (Hc : List.length c = 16%nat).
    { unfold c. rewrite !xor_block_length, length_firstn. lia. }
    destruct (split_block c (fst (Ref.cbc_enc n k c (skipn 16 inp))) Hc)
      as [-> ->].
    rewrite IH by (rewrite length_skipn; lia).
    unfold c. rewrite !xor_block_involutive.
    apply firstn_skipn.
Qed.

Lemma cbc_contract : AES_cbc_contract (L := Ref.lib).
Proof.
  intros inp len ks iv enc Hsize Hmod. cbn [AES_cbc_encrypt Ref.lib].
  unfold AES_BLOCK_SIZE in Hmod. unfold Vec.size in *.
  assert (Hn : List.length inp = (16 * Z.to_nat (len / 16))%nat)
    by (Z.to_euclidean_division_equations; lia).
  unfold Ref.cbc. destruct (enc =? 1).
  - rewrite cbc_enc_length by assumption. lia.
  - rewrite cbc_dec_length by assumption. lia.
Qed.

Lemma cbc_inverse : AES_cbc_inverse (L := Ref.lib).
Proof.
  intros key iv p _ _ Hmod.
  cbn [AES_cbc_encrypt AES_set_encrypt_key AES_set_decrypt_key AES_ENCRYPT
       AES_DECRYPT Ref.lib].
  unfold AES_BLOCK_SIZE in Hmod. unfold Ref.cbc. cbn [Z.eqb Pos.eqb].
  apply cbc_dec_enc. unfold Vec.size in *.
  Z.to_euclidean_division_equations; lia.
Qed.

Lemma typed : Typed (L := Ref.lib).
Proof.
  split; cbn [RSA_size RSA_public_encrypt ECDSA_size ECDSA_sign Ref.lib].
  - intros r w. unfold Ref.rsa_size, is_int.
    destruct (Ref.lookup r (Ref.rsa_bits w)); [| lia].
    Z.to_euclidean_division_equations; lia.
  - intros flen m r p w. unfold Ref.rsa_encrypt, Ref.rsa_size, is_int.
    destruct (_ && _); cbn [fst]; [| lia].
    destruct (Ref.lookup r (Ref.rsa_bits w)); [| lia].
    Z.to_euclidean_division_equations; lia.
  - intros k w. unfold is_int. lia.
  - intros t d dlen sl k w. unfold Ref.ecdsa_sign, is_uint. cbn [fst snd]. lia.
Qed.

Lemma rsa_contract : RSA_contract (L := Ref.lib).
Proof.
  split;
    cbn [RSA_size RSA_public_encrypt RSA_generate_key_ex BN_free Ref.lib].
  - intros r w. unfold Ref.rsa_size.
    destruct (Ref.lookup r (Ref.rsa_bits w)); [| lia].
    Z.to_euclidean_division_equations; lia.
  - intros flen m r p w. unfold Ref.rsa_encrypt.
    destruct (_ && _); cbn [fst]; auto.
  - intros r bits e cb w. unfold Ref.rsa_generate.
    destruct (Z.ltb_spec 0 bits); destruct (Z.ltb_spec bits (2 ^ 16));
      cbn [andb fst snd]; try discriminate.
    intros _. unfold Ref.rsa_size. cbn [Ref.rsa_bits Ref.lookup].
    rewrite Z.eqb_refl, Z.mod_small by lia. reflexivity.
  - reflexivity.
Qed.

Lemma ecdsa_contract : ECDSA_contract (L := Ref.lib).
Proof.
  split; cbn [ECDSA_size ECDSA_sign Ref.lib].
  - intros k w. lia.
  - intros t d dlen sl k w. unfold Ref.ecdsa_sign. cbn [fst snd]. lia.
Qed.

End RefFacts.

(** ** The symmetric flow: [encryptAES] *)

Section AES.

Context {L : OpenSSL}.

Lemma fresh_iv_size (s : State World) :
  Vec.size (fresh_iv s) = AES_BLOCK_SIZE.
Proof. unfold Vec.size. now rewrite fresh_iv_length. Qed.

(** What [encryptAES] returns once the cipher wrote a whole body. *)
Lemma encryptAES_result (key message : bytes) (s : State World) :
  fits message -> AES_cbc_contract ->
  encryptAES key message s =
  Ok (fresh_iv s
        ++ aes128_cbc_encrypt key (fresh_iv s)
             (message ++ repeat x00 (padding message)))
     (after_encryptAES message s).
Proof.
  intros Hfit Hcbc. rewrite encryptAES_run by assumption. f_equal.
  unfold fits in Hfit. pose proof (size_nonneg message) as H0.
  destruct (paddedLength_bounds (Vec.size message)) as (Hb & Hpad & Hmod);
    [lia |].
  rewrite <- (fresh_iv_length s) at 1.
  apply write_at_behind. rewrite repeat_length.
  assert (E : Vec.size (message ++ repeat x00 (padding message))
              = paddedLength (Vec.size message))
    by (rewrite size_app, size_repeat; unfold padding; lia).
  unfold aes128_cbc_encrypt.
  pose proof (Hcbc (message ++ repeat x00 (padding message)) _
                (snd (AES_set_encrypt_key key 128)) (fresh_iv s) AES_ENCRYPT
                eq_refl) as Hlen.
  rewrite E in Hlen. specialize (Hlen Hmod). rewrite E.
  unfold Vec.size in *. lia.
Qed.

Lemma padding_bounds (message : bytes) :
  fits message ->
  (1 <= padding message <= 16)%nat /\
  Z.of_nat (padding message) = 16 - Vec.size message mod 16 /\
  Vec.size (message ++ repeat x00 (padding message))
  = (Vec.size message / AES_BLOCK_SIZE + 1) * AES_BLOCK_SIZE.
Proof.
  intros Hfit. unfold fits in Hfit. pose proof (size_nonneg message) as H0.
  destruct (paddedLength_bounds (Vec.size message)) as (Hb & Hpad & Hmod);
    [lia |].
  rewrite size_app, size_repeat.
  rewrite <- paddedLength_exact by lia.
  unfold padding. lia.
Qed.

(** The output splits into the vector and the body at byte 16. *)
Lemma iv_body_split (s : State World) (body : bytes) :
  firstn (Z.to_nat AES_BLOCK_SIZE) (fresh_iv s ++ body) = fresh_iv s /\
  skipn (Z.to_nat AES_BLOCK_SIZE) (fresh_iv s ++ body) = body.
Proof.
  change (Z.to_nat AES_BLOCK_SIZE) with 16%nat.
  rewrite <- (fresh_iv_length s). split.
  - rewrite firstn_app, Nat.sub_diag, firstn_all. apply app_nil_r.
  - now rewrite skipn_app, Nat.sub_diag, skipn_all.
Qed.

Lemma body_size (key iv message : bytes) :
  fits message -> AES_cbc_contract ->
  Vec.size (aes128_cbc_encrypt key iv
              (message ++ repeat x00 (padding message)))
  = Vec.size message + Z.of_nat (padding message).
Proof.
  intros Hfit Hcbc.
  destruct (padding_bounds message Hfit) as (Hp & Hpz & Hsize).
  unfold aes128_cbc_encrypt. rewrite Hcbc; [| reflexivity |].
  - now rewrite size_app, size_repeat.
  - rewrite Hsize. apply Z.mod_mul. discriminate.
Qed.

(** C1.  For every message (that fits in memory with its padded copy) and
    every 128-bit key, [encryptAES] returns a buffer of
    [AES_BLOCK_SIZE + (len / AES_BLOCK_SIZE + 1) * AES_BLOCK_SIZE] bytes;
    its first [AES_BLOCK_SIZE] bytes are the initialization vector
    [RAND_bytes] has just produced, and the bytes after them are the
    library's AES-128-CBC encryption, under the key and that vector, of the
    message followed by zero bytes up to the padded length. *)
Theorem encryptAES_output (key message : bytes) (s : State World) :
  Vec.size key = 16 -> fits message -> AES_cbc_contract ->
  exists out : bytes,
    encryptAES key message s = Ok out (after_encryptAES message s) /\
    Vec.size out
    = AES_BLOCK_SIZE
      + (Vec.size message / AES_BLOCK_SIZE + 1) * AES_BLOCK_SIZE /\
    firstn (Z.to_nat AES_BLOCK_SIZE) out = fresh_iv s /\
    skipn (Z.to_nat AES_BLOCK_SIZE) out
    = aes128_cbc_encrypt key (fresh_iv s)
        (message ++ repeat x00 (padding message)) /\
    Vec.size (message ++ repeat x00 (padding message))
    = (Vec.size message / AES_BLOCK_SIZE + 1) * AES_BLOCK_SIZE.
Proof.
  intros _ Hfit Hcbc. eexists. split; [now apply encryptAES_result |].
  destruct (padding_bounds message Hfit) as (Hp & Hpz & Hsize).
  split; [| split; [apply iv_body_split | split; [apply iv_body_split |]]].
  - rewrite size_app, body_size by assumption.
    rewrite <- Hsize, size_app, size_repeat.
    now rewrite fresh_iv_size.
  - exact Hsize.
Qed.

(** C8.  Under a 128-bit key, [encryptAES] appends at least one and at
    most 16 zero bytes to the message before it encrypts: the padded
    length exceeds the length of the message, and a message of a whole
    number of blocks gets a whole block of zeros, which is encrypted and
    returned with the rest. *)
Theorem encryptAES_padding (key message : bytes) (s : State World) :
  Vec.size key = 16 -> fits message -> AES_cbc_contract ->
  (1 <= padding message <= 16)%nat /\
  Vec.size message < paddedLength (Vec.size message) /\
  paddedLength (Vec.size message)
  = Vec.size message + Z.of_nat (padding message) /\
  (Vec.size message mod AES_BLOCK_SIZE = 0 -> padding message = 16%nat) /\
  exists out : bytes,
    encryptAES key message s = Ok out (after_encryptAES message s) /\
    skipn (Z.to_nat AES_BLOCK_SIZE) out
    = aes128_cbc_encrypt key (fresh_iv s)
        (message ++ repeat x00 (padding message)) /\
    Vec.size out
    = AES_BLOCK_SIZE + Vec.size message + Z.of_nat (padding message).
Proof.
  intros _ Hfit Hcbc.
  destruct (padding_bounds message Hfit) as (Hp & Hpz & Hsize).
  pose proof (size_nonneg message) as H0.
  assert (Hlen : paddedLength (Vec.size message)
                 = Vec.size message + Z.of_nat (padding message)).
  { unfold fits in Hfit. rewrite paddedLength_exact by lia.
    rewrite <- Hsize, size_app, size_repeat. reflexivity. }
  split; [exact Hp |]. split; [lia |]. split; [exact Hlen |].
  split.
  - unfold AES_BLOCK_SIZE. intros Hz. rewrite Hz in Hpz. lia.
  - eexists. split; [now apply encryptAES_result |].
    split; [apply iv_body_split |].
    rewrite size_app, body_size by assumption.
    rewrite fresh_iv_size. lia.
Qed.

(** C6.  Decrypting the body of what [encryptAES] returns, with the same
    16-byte key and the vector read back from the first [AES_BLOCK_SIZE]
    bytes, gives the message followed by zero bytes only (between 1 and
    16 of them). *)
Theorem encryptAES_decrypt (key message : bytes) (s : State World) :
  Vec.size key = 16 -> fits message ->
  AES_cbc_contract -> AES_cbc_inverse ->
  exists out : bytes,
    encryptAES key message s = Ok out (after_encryptAES message s) /\
    aes128_cbc_decrypt key (firstn (Z.to_nat AES_BLOCK_SIZE) out)
      (skipn (Z.to_nat AES_BLOCK_SIZE) out)
    = message ++ repeat x00 (padding message) /\
    (1 <= padding message <= 16)%nat.
Proof.
  intros Hkey Hfit Hcbc Hinv.
  eexists. split; [now apply encryptAES_result |].
  destruct (padding_bounds message Hfit) as (Hp & Hpz & Hsize).
  split; [| exact Hp].
  destruct (iv_body_split s
              (aes128_cbc_encrypt key (fresh_iv s)
                 (message ++ repeat x00 (padding message)))) as [-> ->].
  unfold aes128_cbc_decrypt.
  rewrite body_size, <- size_repeat with (b := x00), <- size_app
    by assumption.
  unfold aes128_cbc_encrypt. apply Hinv.
  - exact Hkey.
  - apply fresh_iv_size.
  - rewrite Hsize. apply Z.mod_mul. discriminate.
Qed.

(** C9.  The length of what [encryptAES] returns is a function of the
    length of the message alone: two messages of one length, under any
    keys and from any states of the library (so with any random bytes),
    give outputs of one length,
    [AES_BLOCK_SIZE + (len / AES_BLOCK_SIZE + 1) * AES_BLOCK_SIZE]. *)
Theorem encryptAES_length_only (k1 k2 m1 m2 : bytes) (s1 s2 : State World) :
  List.length m1 = List.length m2 -> fits m1 ->
  exists o1 o2 : bytes,
    encryptAES k1 m1 s1 = Ok o1 (after_encryptAES m1 s1) /\
    encryptAES k2 m2 s2 = Ok o2 (after_encryptAES m2 s2) /\
    Vec.size o1 = Vec.size o2 /\
    Vec.size o1
    = AES_BLOCK_SIZE + (Vec.size m1 / AES_BLOCK_SIZE + 1) * AES_BLOCK_SIZE.
Proof.
  intros Hlen Hfit.
  assert (Hsz : Vec.size m2 = Vec.size m1) by (unfold Vec.size; lia).
  assert (Hfit2 : fits m2) by (unfold fits in *; lia).
  do 2 eexists.
  split; [now apply encryptAES_run |]. split; [now apply encryptAES_run |].
  rewrite !write_at_size, !size_app, !size_repeat, !fresh_iv_size, Hsz.
  split; [reflexivity |].
  unfold fits in Hfit. pose proof (size_nonneg m1) as H0.
  destruct (paddedLength_bounds (Vec.size m1)); [lia |].
  rewrite Z2Nat.id by lia. rewrite paddedLength_exact by lia. reflexivity.
Qed.

End AES.

(** An instance on the executable library: the 14 bytes of [Ref.hello]
    give 32 bytes, the vector and one block. *)
Lemma encryptAES_output_witness :
  Vec.size Ref.key0 = 16 /\ fits Ref.hello /\
  AES_cbc_contract (L := Ref.lib) /\
  exists out : bytes,
    encryptAES (L := Ref.lib) Ref.key0 Ref.hello Ref.s1
    = Ok out (after_encryptAES (L := Ref.lib) Ref.hello Ref.s1) /\
    Vec.size out = 32 /\
    firstn 16 out = fresh_iv (L := Ref.lib) Ref.s1 /\
    skipn 16 out
    = aes128_cbc_encrypt (L := Ref.lib) Ref.key0
        (fresh_iv (L := Ref.lib) Ref.s1) (Ref.hello ++ [x00; x00]).
Proof.
  split; [reflexivity |]. split; [reflexivity |].
  split; [exact RefFacts.cbc_contract |].
  destruct (encryptAES_output (L := Ref.lib) Ref.key0 Ref.hello Ref.s1
              eq_refl eq_refl RefFacts.cbc_contract)
    as (out & Hrun & Hsize & Hiv & Hbody & _).
  exists out. repeat split; assumption.
Defined.

(** An instance: a 16-byte message gets 16 zero bytes and gives 48
    bytes. *)
Lemma encryptAES_padding_witness :
  Vec.size Ref.key0 = 16 /\ fits Ref.key0 /\
  AES_cbc_contract (L := Ref.lib) /\
  Vec.size Ref.key0 mod AES_BLOCK_SIZE = 0 /\
  padding Ref.key0 = 16%nat /\
  exists out : bytes,
    encryptAES (L := Ref.lib) Ref.key0 Ref.key0 Ref.s1
    = Ok out (after_encryptAES (L := Ref.lib) Ref.key0 Ref.s1) /\
    Vec.size out = 48.
Proof.
  split; [reflexivity |]. split; [reflexivity |].
  split; [exact RefFacts.cbc_contract |]. split; [reflexivity |].
  destruct (encryptAES_padding (L := Ref.lib) Ref.key0 Ref.key0 Ref.s1
              eq_refl eq_refl RefFacts.cbc_contract)
    as (_ & _ & _ & Hfull & out & Hrun & _ & Hsize).
  split; [exact (Hfull eq_refl) |].
  exists out. split; assumption.
Defined.

(** An instance: [Ref.hello] comes back followed by two zero bytes. *)
Lemma encryptAES_decrypt_witness :
  Vec.size Ref.key0 = 16 /\ fits Ref.hello /\
  AES_cbc_contract (L := Ref.lib) /\ AES_cbc_inverse (L := Ref.lib) /\
  exists out : bytes,
    encryptAES (L := Ref.lib) Ref.key0 Ref.hello Ref.s1
    = Ok out (after_encryptAES (L := Ref.lib) Ref.hello Ref.s1) /\
    aes128_cbc_decrypt (L := Ref.lib) Ref.key0 (firstn 16 out) (skipn 16 out)
    = Ref.hello ++ [x00; x00].
Proof.
  split; [reflexivity |]. split; [reflexivity |].
  split; [exact RefFacts.cbc_contract |].
  split; [exact RefFacts.cbc_inverse |].
  destruct (encryptAES_decrypt (L := Ref.lib) Ref.key0 Ref.hello Ref.s1
              eq_refl eq_refl RefFacts.cbc_contract RefFacts.cbc_inverse)
    as (out & Hrun & Hdec & _).
  exists out. split; assumption.
Defined.

(** An instance: two 14-byte messages, under different keys and from
    different states, both give 32 bytes. *)
Lemma encryptAES_length_only_witness :
  List.length Ref.hello = List.length (repeat x41 14) /\ fits Ref.hello /\
  exists o1 o2 : bytes,
    encryptAES (L := Ref.lib) Ref.key0 Ref.hello Ref.s0
    = Ok o1 (after_encryptAES (L := Ref.lib) Ref.hello Ref.s0) /\
    encryptAES (L := Ref.lib) Ref.long_message (repeat x41 14) Ref.s1
    = Ok o2 (after_encryptAES (L := Ref.lib) (repeat x41 14) Ref.s1) /\
    Vec.size o1 = Vec.size o2 /\ Vec.size o1 = 32.
Proof.
  split; [reflexivity |]. split; [reflexivity |].
  exact (encryptAES_length_only (L := Ref.lib) Ref.key0 Ref.long_message
           Ref.hello (repeat x41 14) Ref.s0 Ref.s1 eq_refl eq_refl).
Defined.

(** ** The public-key flows: [encryptRSA] and [signECC] *)

Section RSA.

Context {L : OpenSSL}.

Lemma lift_inr {A} (r : exn + A) (a : A) (s : State World) :
  r = inr a -> lift r s = Ok a s.
Proof. now intros ->. Qed.

Lemma lift_inl {A} (r : exn + A) (e : exn) (s : State World) :
  r = inl e -> lift (A := A) r s = Throw e s.
Proof. now intros ->. Qed.

(** The vector [encryptRSA] starts from, for a size that is a size. *)
Lemma encryptRSA_buffer (rsa : ptr) (s : State World) :
  is_int (RSA_size rsa (world s)) -> 0 <= RSA_size rsa (world s) ->
  Vec.make (to_size_t (RSA_size rsa (world s))) x00
  = inr (repeat x00 (Z.to_nat (RSA_size rsa (world s)))).
Proof.
  intros Hint H0. rewrite to_size_t_of_int by assumption.
  apply make_ok. unfold is_int, Vec.max_size in *. lia.
Qed.

(** An encryption that returned a length leaves a vector of that length. *)
Lemma encryptRSA_returns (rsa : ptr) (message : bytes) (s : State World) :
  is_int (RSA_size rsa (world s)) -> 0 <= RSA_size rsa (world s) ->
  is_int (encryptedLength rsa message s) ->
  0 <= encryptedLength rsa message s ->
  exists out : bytes,
    encryptRSA rsa message s
    = Ok out (after_RSA_public_encrypt rsa message s) /\
    Vec.size out = encryptedLength rsa message s.
Proof.
  intros Hn Hn0 Hlen Hlen0.
  rewrite encryptRSA_run, encryptRSA_buffer by assumption.
  rewrite (to_size_t_of_int _ Hlen Hlen0).
  destruct (resize_ok
              (Vec.write_at 0 (RSA_written rsa message s)
                 (repeat x00 (Z.to_nat (RSA_size rsa (world s)))))
              (encryptedLength rsa message s)) as [out Hout].
  { unfold is_int, Vec.max_size in *. lia. }
  exists out. split.
  - now apply lift_inr.
  - now apply resize_size in Hout.
Qed.

(** A negative length makes [resize] throw, if the constructor has not. *)
Lemma encryptRSA_throws (rsa : ptr) (message : bytes) (s : State World) :
  is_int (encryptedLength rsa message s) ->
  encryptedLength rsa message s < 0 ->
  exists s' : State World,
    encryptRSA rsa message s = Throw length_error s'.
Proof.
  intros Hint Hneg. rewrite encryptRSA_run.
  destruct (Vec.make (to_size_t (RSA_size rsa (world s))) x00) as [[] | buf].
  - eauto.
  - eexists. apply lift_inl, resize_refused.
    now apply to_size_t_negative.
Qed.

(** C2.  If the public-key encryption fails, that is [RSA_public_encrypt]
    returns its sentinel -1, [encryptRSA] does not return a buffer: an
    exception ([std::length_error]) reaches its caller. *)
Theorem encryptRSA_failure_is_signalled (rsa : ptr) (message : bytes)
  (s : State World) :
  encryptedLength rsa message s = -1 ->
  (exists s' : State World,
     encryptRSA rsa message s = Throw length_error s') /\
  (forall (out : bytes) (s' : State World),
     encryptRSA rsa message s <> Ok out s').
Proof.
  intros Hfail.
  destruct (encryptRSA_throws rsa message s) as [s' Hrun].
  - rewrite Hfail. unfold is_int. lia.
  - lia.
  - split; [eauto |]. intros out s''. rewrite Hrun. discriminate.
Qed.

(** C4.  When the library's encryption succeeds, the ciphertext
    [encryptRSA] returns has exactly [RSA_size(rsa)] bytes; for the key of
    [generateRSAKeys], generated with 2048 bits, that is 256 bytes. *)
Theorem encryptRSA_length_is_key_size (rsa : ptr) (message : bytes)
  (s s0 : State World) :
  Typed -> RSA_contract ->
  (encryptedLength rsa message s <> -1 ->
   exists out : bytes,
     encryptRSA rsa message s
     = Ok out (after_RSA_public_encrypt rsa message s) /\
     Vec.size out = RSA_size rsa (world s)) /\
  (keygen_code s0 = 1 ->
   exists (key : ptr) (s1 : State World),
     generateRSAKeys s0 = Ok key s1 /\
     RSA_size key (world s1) = 256 /\
     (encryptedLength key message s1 <> -1 ->
      exists out : bytes,
        encryptRSA key message s1
        = Ok out (after_RSA_public_encrypt key message s1) /\
        Vec.size out = 256)).
Proof.
  intros Hty Hrsa.
  assert (Hgen : forall r m st,
             encryptedLength r m st <> -1 ->
             exists out : bytes,
               encryptRSA r m st = Ok out (after_RSA_public_encrypt r m st) /\
               Vec.size out = RSA_size r (world st)).
  { intros r m st Hok.
    assert (E : encryptedLength r m st = RSA_size r (world st)).
    { unfold encryptedLength in *.
      destruct (RSA_public_encrypt_returns Hrsa (to_int (Vec.size m)) m r
                  RSA_PKCS1_PADDING (world st)); [contradiction | assumption]. }
    rewrite <- E. apply encryptRSA_returns.
    - apply (RSA_size_int Hty).
    - apply (RSA_size_nonneg Hrsa).
    - apply (RSA_public_encrypt_int Hty).
    - rewrite E. apply (RSA_size_nonneg Hrsa). }
  split; [apply Hgen |].
  unfold keygen_code, generateRSAKeys. intros Hcode.
  rewrite !run_call. cbn [fst snd world trace].
  destruct (RSA_new (world s0)) as [key w1]. cbn [fst snd] in *.
  destruct (BN_new w1) as [bne w2]. cbn [fst snd] in *.
  destruct (BN_set_word bne RSA_F4 w2) as [c w3]. cbn [fst snd] in *.
  unfold ret.
  do 2 eexists. split; [reflexivity |].
  cbn [world].
  assert (Hsize : RSA_size key
                    (BN_free bne
                       (snd (RSA_generate_key_ex key 2048 bne nullptr w3)))
                  = 256).
  { rewrite (BN_free_keeps_size Hrsa).
    now rewrite (RSA_generate_key_ex_size Hrsa) by assumption. }
  split; [exact Hsize |].
  intros Hok. destruct (Hgen _ _ _ Hok) as (out & Hrun & Hout).
  exists out. split; [exact Hrun |]. rewrite Hout. exact Hsize.
Qed.

(** C5.  A buffer the program returns has the length the library reported
    for it: a ciphertext [encryptRSA] returns is as long as the value
    [RSA_public_encrypt] returned (and one is returned whenever that value
    and the key size are lengths), and the signature of [signECC] is as
    long as the value [ECDSA_sign] stored in [sigLen]. *)
Theorem returned_length_is_reported (rsa key : ptr) (message data : bytes)
  (s : State World) :
  Typed ->
  (forall (out : bytes) (s' : State World),
     encryptRSA rsa message s = Ok out s' ->
     Vec.size out = encryptedLength rsa message s) /\
  (0 <= RSA_size rsa (world s) -> 0 <= encryptedLength rsa message s ->
   exists out : bytes,
     encryptRSA rsa message s
     = Ok out (after_RSA_public_encrypt rsa message s)) /\
  (exists sig : bytes,
     signECC key data s = Ok sig (after_ECDSA_sign key data s) /\
     Vec.size sig = stored_sigLen key data s).
Proof.
  intros Hty.
  pose proof (RSA_public_encrypt_int Hty (to_int (Vec.size message)) message
                rsa RSA_PKCS1_PADDING (world s)) as Hlen.
  fold (encryptedLength rsa message s) in Hlen.
  split; [| split].
  - intros out s' Hrun.
    destruct (Z.lt_ge_cases (encryptedLength rsa message s) 0) as [Hneg | H0].
    + destruct (encryptRSA_throws rsa message s Hlen Hneg) as [s'' Hthrow].
      rewrite Hthrow in Hrun. discriminate.
    + rewrite encryptRSA_run in Hrun.
      destruct (Vec.make (to_size_t (RSA_size rsa (world s))) x00)
        as [e | buf]; [discriminate |].
      rewrite (to_size_t_of_int _ Hlen H0) in Hrun. unfold lift in Hrun.
      destruct (Vec.resize _ _) as [e | v] eqn:Hres; [discriminate |].
      inversion Hrun; subst. now apply resize_size in Hres.
  - intros Hn0 H0.
    destruct (encryptRSA_returns rsa message s (RSA_size_int Hty _ _) Hn0
                Hlen H0) as (out & Hrun & _).
    eauto.
  - pose proof (ECDSA_sign_uint Hty 0 data (to_int (Vec.size data))
                  (to_uint (ECDSA_size key (world s))) key (world s)) as Hsl.
    fold (stored_sigLen key data s) in Hsl.
    pose proof (to_uint_range (ECDSA_size key (world s))) as Hn.
    rewrite signECC_run, make_ok by (unfold Vec.max_size; lia).
    destruct (resize_ok
                (Vec.write_at 0 (ECDSA_written key data s)
                   (repeat x00
                      (Z.to_nat (to_uint (ECDSA_size key (world s))))))
                (stored_sigLen key data s)) as [sig Hsig].
    { unfold is_uint, Vec.max_size in *. lia. }
    exists sig. split; [now apply lift_inr |].
    apply resize_size in Hsig; [assumption | unfold is_uint in Hsl; lia].
Qed.

(** C10.  The signature [signECC] returns has at most [ECDSA_size(key)]
    bytes: the buffer is built with that many, and [resize] to the length
    the signing reported keeps a prefix of it. *)
Theorem signECC_length_bounded (key : ptr) (data : bytes) (s : State World) :
  Typed -> ECDSA_contract ->
  exists sig : bytes,
    signECC key data s = Ok sig (after_ECDSA_sign key data s) /\
    Vec.size sig <= ECDSA_size key (world s) /\
    sig = firstn (Z.to_nat (stored_sigLen key data s))
            (Vec.write_at 0 (ECDSA_written key data s)
               (repeat x00 (Z.to_nat (ECDSA_size key (world s))))).
Proof.
  intros Hty Hec.
  pose proof (ECDSA_size_int Hty key (world s)) as Hint.
  pose proof (ECDSA_size_nonneg Hec key (world s)) as Hn0.
  pose proof (ECDSA_sign_uint Hty 0 data (to_int (Vec.size data))
                (to_uint (ECDSA_size key (world s))) key (world s)) as Hsl.
  pose proof (ECDSA_sign_siglen Hec 0 data (to_int (Vec.size data))
                (to_uint (ECDSA_size key (world s))) key (world s)) as Hle.
  fold (stored_sigLen key data s) in Hsl, Hle.
  unfold is_int, is_uint in *.
  rewrite signECC_run.
  rewrite (to_uint_small (ECDSA_size key (world s))) by lia.
  rewrite make_ok by (unfold Vec.max_size; lia).
  eexists. split.
  - apply lift_inr, resize_shrink.
    + rewrite write_at_size, size_repeat. lia.
    + unfold Vec.max_size. lia.
  - split; [| reflexivity].
    unfold Vec.size. rewrite length_firstn. lia.
Qed.

End RSA.

(** ** The driver: [main] *)

Section Driver.

Context {L : OpenSSL}.

Lemma bind_ok {A B} (m : M A) (k : A -> M B) (s s' : State World) (a : A) :
  m s = Ok a s' -> bind m k s = k a s'.
Proof. unfold bind. now intros ->. Qed.

Lemma bind_throw {A B} (m : M A) (k : A -> M B) (s s' : State World)
  (e : exn) :
  m s = Throw e s' -> bind m k s = Throw e s'.
Proof. unfold bind. now intros ->. Qed.

Lemma generateRSAKeys_trace (s : State World) :
  exists (rsa bne : ptr) (s' : State World),
    generateRSAKeys s = Ok rsa s' /\
    trace s' = trace s ++ [EvRSA_new rsa; EvBN_new bne;
                           EvBN_set_word bne RSA_F4;
                           EvRSA_generate_key_ex rsa 2048 bne;
                           EvBN_free bne].
Proof.
  unfold generateRSAKeys. rewrite !run_call. unfold ret.
  do 3 eexists. split; [reflexivity |].
  cbn [trace fst snd]. rewrite <- !app_assoc. reflexivity.
Qed.

Lemma generateAES128Key_trace (s : State World) :
  exists (key : bytes) (s' : State World),
    generateAES128Key s = Ok key s' /\
    trace s' = trace s ++ [EvRAND_bytes 16].
Proof.
  unfold generateAES128Key.
  erewrite run_lift_ok by (apply make_ok; vm_compute; discriminate).
  cbv zeta. rewrite run_call. unfold ret.
  do 2 eexists. split; reflexivity.
Qed.

Lemma generateECCKeys_trace (s : State World) :
  exists (ecc : ptr) (s' : State World),
    generateECCKeys s = Ok ecc s' /\
    trace s' = trace s ++ [EvEC_KEY_new_by_curve_name ecc;
                           EvEC_KEY_generate_key ecc].
Proof.
  unfold generateECCKeys. rewrite !run_call. unfold ret.
  do 2 eexists. split; [reflexivity |].
  cbn [trace fst snd]. rewrite <- !app_assoc. reflexivity.
Qed.

Lemma encryptRSA_trace (rsa : ptr) (message : bytes) (s : State World) :
  (exists (out : bytes) (s' : State World),
     encryptRSA rsa message s = Ok out s' /\
     trace s' = trace s ++ [EvRSA_size rsa;
                            EvRSA_public_encrypt rsa
                              (to_int (Vec.size message))]) \/
  (exists (s' : State World) (new : list event),
     encryptRSA rsa message s = Throw length_error s' /\
     trace s' = trace s ++ new /\ filter is_release new = []).
Proof.
  rewrite encryptRSA_run.
  destruct (Vec.make _ _) as [[] | buf].
  - right. do 2 eexists. split; [reflexivity |]. split; reflexivity.
  - unfold lift. destruct (Vec.resize _ _) as [[] | out].
    + right. do 2 eexists. split; [reflexivity |]. split; reflexivity.
    + left. do 2 eexists. split; reflexivity.
Qed.

Lemma signECC_trace (key : ptr) (data : bytes) (s : State World) :
  (exists (sig : bytes) (s' : State World),
     signECC key data s = Ok sig s' /\
     trace s' = trace s ++ [EvECDSA_size key;
                            EvECDSA_sign key (to_int (Vec.size data))]) \/
  (exists (s' : State World) (new : list event),
     signECC key data s = Throw length_error s' /\
     trace s' = trace s ++ new /\ filter is_release new = []).
Proof.
  rewrite signECC_run.
  destruct (Vec.make _ _) as [[] | buf].
  - right. do 2 eexists. split; [reflexivity |]. split; reflexivity.
  - unfold lift. destruct (Vec.resize _ _) as [[] | out].
    + right. do 2 eexists. split; [reflexivity |]. split; reflexivity.
    + left. do 2 eexists. split; reflexivity.
Qed.

End Driver.

(** ** Return codes *)

(** C3.  The program inspects no return code.  Whatever
    [RSA_public_encrypt] returns, [encryptRSA] hands it, as a [size_t], to
    [resize] as the new size of the buffer; a negative return thus reaches
    [resize] as 2^64 minus its magnitude, a size above [max_size].
    Whatever status [ECDSA_sign] returns, [signECC] does the same. *)
Theorem return_codes_not_inspected {L : OpenSSL} (rsa key : ptr)
  (message data : bytes) (s : State World) :
  Typed ->
  (forall buf : bytes,
     Vec.make (to_size_t (RSA_size rsa (world s))) x00 = inr buf ->
     encryptRSA rsa message s
     = lift (Vec.resize (Vec.write_at 0 (RSA_written rsa message s) buf)
               (to_size_t (encryptedLength rsa message s)))
         (after_RSA_public_encrypt rsa message s)) /\
  (encryptedLength rsa message s < 0 ->
   to_size_t (encryptedLength rsa message s)
   = 2 ^ 64 + encryptedLength rsa message s /\
   Vec.max_size < to_size_t (encryptedLength rsa message s)) /\
  (forall code : Z -> bytes -> Z -> Z -> ptr -> World -> Z,
     signECC (L := with_ECDSA_sign_status L code) key data s
     = signECC key data s).
Proof.
  intros Hty. split; [| split].
  - intros buf Hbuf. now rewrite encryptRSA_run, Hbuf.
  - intros Hneg. apply to_size_t_negative; [| assumption].
    apply (RSA_public_encrypt_int Hty).
  - intros code.
    rewrite (signECC_run (L := with_ECDSA_sign_status L code)), signECC_run.
    reflexivity.
Qed.

(** An instance: for the 300-byte message the encryption returns -1,
    which reaches [resize] as 2^64 - 1. *)
Lemma return_codes_not_inspected_witness :
  Typed (L := Ref.lib) /\
  encryptedLength (L := Ref.lib) 1 Ref.long_message Ref.s1 = -1 /\
  to_size_t (encryptedLength (L := Ref.lib) 1 Ref.long_message Ref.s1)
  = 2 ^ 64 - 1 /\
  signECC (L := with_ECDSA_sign_status Ref.lib (fun _ _ _ _ _ _ => 0)) 3
    Ref.hello Ref.s1
  = signECC (L := Ref.lib) 3 Ref.hello Ref.s1.
Proof.
  split; [exact RefFacts.typed |]. split; [reflexivity |].
  destruct (return_codes_not_inspected (L := Ref.lib) 1 3 Ref.long_message
              Ref.hello Ref.s1 RefFacts.typed) as (_ & Hneg & Hsig).
  split; [exact (proj1 (Hneg eq_refl)) | apply Hsig].
Defined.

(** An instance: the 300-byte message exceeds what a 2048-bit key takes,
    the encryption returns -1 and [encryptRSA] throws. *)
Lemma encryptRSA_failure_is_signalled_witness :
  encryptedLength (L := Ref.lib) 1 Ref.long_message Ref.s1 = -1 /\
  exists s' : State World,
    encryptRSA (L := Ref.lib) 1 Ref.long_message Ref.s1
    = Throw length_error s'.
Proof.
  split; [reflexivity |].
  exact (proj1 (encryptRSA_failure_is_signalled (L := Ref.lib) 1
                  Ref.long_message Ref.s1 eq_refl)).
Defined.

(** An instance: the key [generateRSAKeys] makes from [Ref.s0] encrypts
    [Ref.hello] to 256 bytes. *)
Lemma encryptRSA_length_is_key_size_witness :
  Typed (L := Ref.lib) /\ RSA_contract (L := Ref.lib) /\
  keygen_code (L := Ref.lib) Ref.s0 = 1 /\
  exists (key : ptr) (s1 : State World) (out : bytes),
    generateRSAKeys (L := Ref.lib) Ref.s0 = Ok key s1 /\
    encryptRSA (L := Ref.lib) key Ref.hello s1
    = Ok out (after_RSA_public_encrypt (L := Ref.lib) key Ref.hello s1) /\
    Vec.size out = 256.
Proof.
  split; [exact RefFacts.typed |]. split; [exact RefFacts.rsa_contract |].
  split; [reflexivity |].
  destruct (encryptRSA_length_is_key_size (L := Ref.lib) 1 Ref.hello Ref.s1
              Ref.s0 RefFacts.typed RefFacts.rsa_contract) as [_ Hkey].
  destruct (Hkey eq_refl) as (key & s1 & Hgen & Hsize & Henc).
  exists key, s1.
  assert (Hok : encryptedLength (L := Ref.lib) key Ref.hello s1 <> -1).
  { vm_compute in Hgen. inversion Hgen; subst. vm_compute. discriminate. }
  destruct (Henc Hok) as (out & Hrun & Hout).
  exists out. repeat split; assumption.
Defined.

(** An instance: the signature has the 71 bytes the signing stored. *)
Lemma returned_length_is_reported_witness :
  Typed (L := Ref.lib) /\
  exists sig : bytes,
    signECC (L := Ref.lib) 3 Ref.hello Ref.s1
    = Ok sig (after_ECDSA_sign (L := Ref.lib) 3 Ref.hello Ref.s1) /\
    Vec.size sig = 71.
Proof.
  split; [exact RefFacts.typed |].
  exact (proj2 (proj2 (returned_length_is_reported (L := Ref.lib) 1 3
                         Ref.hello Ref.hello Ref.s1 RefFacts.typed))).
Defined.

(** An instance: 71 bytes of the 72 announced. *)
Lemma signECC_length_bounded_witness :
  Typed (L := Ref.lib) /\ ECDSA_contract (L := Ref.lib) /\
  exists sig : bytes,
    signECC (L := Ref.lib) 3 Ref.hello Ref.s1
    = Ok sig (after_ECDSA_sign (L := Ref.lib) 3 Ref.hello Ref.s1) /\
    Vec.size sig <= 72.
Proof.
  split; [exact RefFacts.typed |]. split; [exact RefFacts.ecdsa_contract |].
  destruct (signECC_length_bounded (L := Ref.lib) 3 Ref.hello Ref.s1
              RefFacts.typed RefFacts.ecdsa_contract)
    as (sig & Hrun & Hle & _).
  exists sig. split; assumption.
Defined.

(** On the executable library [main] returns 0. *)
Example main_returns :
  exists s' : State World,
    main (L := Ref.lib) Ref.s0 = Ok 0 s' /\
    trace s' = main_events (L := Ref.lib) 1 2 3 256 71.
Proof. eexists. split; vm_compute; reflexivity. Qed.

(** ** More on [encryptAES] and [generateAES128Key] *)

Section MoreAES.

Context {L : OpenSSL}.

(** Zero bytes short of the block boundary leave the padded length. *)
Lemma paddedLength_zeros (message : bytes) (k : nat) :
  fits message -> (k < padding message)%nat ->
  fits (message ++ repeat x00 k) /\
  paddedLength (Vec.size (message ++ repeat x00 k))
  = paddedLength (Vec.size message) /\
  (padding (message ++ repeat x00 k) + k = padding message)%nat.
Proof.
  intros Hfit Hk. unfold fits in *.
  pose proof (size_nonneg message) as H0.
  destruct (paddedLength_bounds (Vec.size message)) as (Hb & Hpad & Hmod);
    [lia |].
  assert (Hsz : Vec.size (message ++ repeat x00 k)
                = Vec.size message + Z.of_nat k)
    by now rewrite size_app, size_repeat.
  assert (Hlt : Vec.size message + Z.of_nat k
                < paddedLength (Vec.size message))
    by (unfold padding in Hk; lia).
  assert (HP : paddedLength (Vec.size message) <= 2 ^ 63 - 32).
  { rewrite paddedLength_exact by lia. unfold AES_BLOCK_SIZE.
    Z.to_euclidean_division_equations; lia. }
  assert (Hsame : paddedLength (Vec.size message + Z.of_nat k)
                  = paddedLength (Vec.size message)).
  { rewrite !paddedLength_exact by lia.
    rewrite paddedLength_exact in Hlt, Hb by lia.
    unfold AES_BLOCK_SIZE in *. f_equal. f_equal.
    Z.to_euclidean_division_equations; lia. }
  rewrite Hsz. split; [lia |]. split; [exact Hsame |].
  unfold padding. rewrite Hsz, Hsame. lia.
Qed.

(** X1.  Zero padding is ambiguous: a message and the same message followed
    by zero bytes that stay short of the block boundary are encrypted to
    the same output, from any state and under any 128-bit key, so nothing
    in the output tells where the message ended. *)
Theorem encryptAES_trailing_zeros (key message : bytes) (k : nat)
  (s : State World) :
  Vec.size key = 16 -> fits message -> (k < padding message)%nat ->
  encryptAES key (message ++ repeat x00 k) s = encryptAES key message s.
Proof.
  intros _ Hfit Hk.
  destruct (paddedLength_zeros message k Hfit Hk) as (Hfit' & Hlen & Hpad).
  rewrite !encryptAES_run by assumption.
  unfold after_encryptAES. rewrite Hlen.
  rewrite <- app_assoc, <- repeat_app.
  replace (k + padding (message ++ repeat x00 k))%nat with (padding message)
    by lia.
  reflexivity.
Qed.

(** X3.  [generateAES128Key] always returns a key of 16 bytes, after one
    request for 16 random bytes whose status it does not look at: the key
    is what [RAND_bytes] wrote when it wrote 16 bytes, and 16 zero bytes
    when it wrote none. *)
Theorem generateAES128Key_key (s : State World) :
  exists key : bytes,
    generateAES128Key s
    = Ok key (mkState (snd (RAND_bytes 16 (world s)))
                (trace s ++ [EvRAND_bytes 16])) /\
    Vec.size key = 16 /\
    (Vec.size (snd (fst (RAND_bytes 16 (world s)))) = 16 ->
     key = snd (fst (RAND_bytes 16 (world s)))) /\
    (snd (fst (RAND_bytes 16 (world s))) = [] -> key = repeat x00 16).
Proof.
  unfold generateAES128Key.
  erewrite run_lift_ok by (apply make_ok; vm_compute; discriminate).
  cbv zeta. rewrite run_call. unfold ret.
  change (to_int (Vec.size (repeat x00 (Z.to_nat 16)))) with 16.
  eexists. split; [reflexivity |]. split; [| split].
  - now rewrite write_at_size.
  - intros Hw. unfold Vec.size in Hw.
    change (Z.to_nat 16) with 16%nat.
    rewrite write_at_front by lia.
    replace (16 - List.length (snd (fst (RAND_bytes 16 (world s)))))%nat
      with 0%nat by lia.
    apply app_nil_r.
  - intros ->. reflexivity.
Qed.

End MoreAES.

Lemma encryptAES_trailing_zeros_witness :
  Vec.size Ref.key0 = 16 /\ fits Ref.hello /\
  (1 < padding Ref.hello)%nat /\
  Ref.hello ++ [x00] <> Ref.hello /\
  encryptAES (L := Ref.lib) Ref.key0 (Ref.hello ++ [x00]) Ref.s1
  = encryptAES (L := Ref.lib) Ref.key0 Ref.hello Ref.s1.
Proof.
  split; [reflexivity |]. split; [reflexivity |].
  assert (Hk : (1 < padding Ref.hello)%nat) by (vm_compute; lia).
  split; [exact Hk |]. split; [discriminate |].
  exact (encryptAES_trailing_zeros (L := Ref.lib) Ref.key0 Ref.hello 1
           Ref.s1 eq_refl eq_refl Hk).
Defined.

(** ** More on [encryptRSA] and [signECC] *)

Section MoreRSA.

Context {L : OpenSSL}.

(** A negative key size stops [encryptRSA] in the constructor. *)
Lemma encryptRSA_no_buffer (rsa : ptr) (message : bytes) (s : State World) :
  is_int (RSA_size rsa (world s)) -> RSA_size rsa (world s) < 0 ->
  encryptRSA rsa message s = Throw length_error (after_RSA_size rsa s).
Proof.
  intros Hint Hneg. rewrite encryptRSA_run.
  rewrite make_refused; [reflexivity |].
  now apply to_size_t_negative.
Qed.

(** X4.  When [encryptRSA] throws.  It throws [std::length_error] from the
    constructor, before the encryption is called, exactly when [RSA_size]
    is negative; from [resize], after the encryption, exactly when the size
    is not negative and the encryption returned a negative value; and it
    returns a buffer in all other cases. *)
Theorem encryptRSA_outcomes (rsa : ptr) (message : bytes) (s : State World) :
  Typed ->
  (RSA_size rsa (world s) < 0 /\
   encryptRSA rsa message s = Throw length_error (after_RSA_size rsa s)) \/
  (0 <= RSA_size rsa (world s) /\ encryptedLength rsa message s < 0 /\
   encryptRSA rsa message s
   = Throw length_error (after_RSA_public_encrypt rsa message s)) \/
  (0 <= RSA_size rsa (world s) /\ 0 <= encryptedLength rsa message s /\
   exists out : bytes,
     encryptRSA rsa message s
     = Ok out (after_RSA_public_encrypt rsa message s)).
Proof.
  intros Hty.
  pose proof (RSA_size_int Hty rsa (world s)) as Hn.
  pose proof (RSA_public_encrypt_int Hty (to_int (Vec.size message)) message
                rsa RSA_PKCS1_PADDING (world s)) as Hlen.
  fold (encryptedLength rsa message s) in Hlen.
  destruct (Z.lt_ge_cases (RSA_size rsa (world s)) 0) as [Hneg | H0].
  { left. split; [assumption |]. now apply encryptRSA_no_buffer. }
  right.
  destruct (Z.lt_ge_cases (encryptedLength rsa message s) 0) as [Hlneg | Hl0].
  - left. split; [assumption |]. split; [assumption |].
    rewrite encryptRSA_run, encryptRSA_buffer by assumption.
    apply lift_inl, resize_refused. now apply to_size_t_negative.
  - right. split; [assumption |]. split; [assumption |].
    destruct (encryptRSA_returns rsa message s Hn H0 Hlen Hl0)
      as (out & Hrun & _).
    eauto.
Qed.

(** What [resize] keeps of a buffer of zeros written from its start, when
    the new size is the number of bytes written. *)
Lemma resize_written (written : bytes) (n len : Z) :
  Vec.size written = len -> len <= n -> n <= Vec.max_size ->
  Vec.resize (Vec.write_at 0 written (repeat x00 (Z.to_nat n))) len
  = inr written.
Proof.
  intros Hw Hle Hmax. pose proof (size_nonneg written) as H0.
  rewrite resize_shrink.
  - unfold Vec.size in *.
    rewrite write_at_front by lia.
    rewrite <- Hw, Nat2Z.id, firstn_app, Nat.sub_diag, firstn_all.
    now rewrite firstn_O, app_nil_r.
  - rewrite write_at_size, size_repeat. lia.
  - lia.
Qed.

(** X5.  When the encryption wrote as many bytes as it returned, and no
    more than the key size, [encryptRSA] returns exactly the bytes the
    library wrote: nothing is cut off and nothing is added. *)
Theorem encryptRSA_returns_written (rsa : ptr) (message : bytes)
  (s : State World) :
  Typed ->
  Vec.size (RSA_written rsa message s) = encryptedLength rsa message s ->
  encryptedLength rsa message s <= RSA_size rsa (world s) ->
  encryptRSA rsa message s
  = Ok (RSA_written rsa message s) (after_RSA_public_encrypt rsa message s).
Proof.
  intros Hty Hw Hle.
  pose proof (RSA_size_int Hty rsa (world s)) as Hn.
  pose proof (RSA_public_encrypt_int Hty (to_int (Vec.size message)) message
                rsa RSA_PKCS1_PADDING (world s)) as Hlen.
  fold (encryptedLength rsa message s) in Hlen.
  pose proof (size_nonneg (RSA_written rsa message s)) as H0.
  rewrite encryptRSA_run, encryptRSA_buffer by (assumption || lia).
  rewrite to_size_t_of_int by (assumption || lia).
  apply lift_inr, resize_written; try assumption.
  unfold is_int, Vec.max_size in *. lia.
Qed.

(** X6.  When the signing wrote as many bytes as it stored in [sigLen],
    and no more than [ECDSA_size] announced, [signECC] returns exactly the
    bytes the library wrote. *)
Theorem signECC_returns_written (key : ptr) (data : bytes) (s : State World) :
  Typed ->
  Vec.size (ECDSA_written key data s) = stored_sigLen key data s ->
  stored_sigLen key data s <= ECDSA_size key (world s) ->
  signECC key data s
  = Ok (ECDSA_written key data s) (after_ECDSA_sign key data s).
Proof.
  intros Hty Hw Hle.
  pose proof (ECDSA_size_int Hty key (world s)) as Hn.
  pose proof (size_nonneg (ECDSA_written key data s)) as H0.
  unfold is_int in Hn.
  rewrite signECC_run.
  rewrite (to_uint_small (ECDSA_size key (world s))) by lia.
  rewrite make_ok by (unfold Vec.max_size; lia).
  apply lift_inr, resize_written; try assumption.
  unfold Vec.max_size. lia.
Qed.

End MoreRSA.

Lemma encryptRSA_outcomes_witness :
  Typed (L := Ref.lib) /\
  encryptRSA (L := Ref.lib) 1 Ref.long_message Ref.s1
  = Throw length_error
      (after_RSA_public_encrypt (L := Ref.lib) 1 Ref.long_message Ref.s1).
Proof.
  split; [exact RefFacts.typed |].
  destruct (encryptRSA_outcomes (L := Ref.lib) 1 Ref.long_message Ref.s1
              RefFacts.typed) as [[Hneg _] | [(_ & _ & Hrun) | (_ & H0 & _)]].
  - vm_compute in Hneg. discriminate.
  - exact Hrun.
  - vm_compute in H0. now contradiction H0.
Defined.

Lemma encryptRSA_returns_written_witness :
  Typed (L := Ref.lib) /\
  Vec.size (RSA_written (L := Ref.lib) 1 Ref.hello Ref.s1) = 256 /\
  encryptRSA (L := Ref.lib) 1 Ref.hello Ref.s1
  = Ok (RSA_written (L := Ref.lib) 1 Ref.hello Ref.s1)
      (after_RSA_public_encrypt (L := Ref.lib) 1 Ref.hello Ref.s1).
Proof.
  split; [exact RefFacts.typed |]. split; [reflexivity |].
  apply (encryptRSA_returns_written (L := Ref.lib) 1 Ref.hello Ref.s1
           RefFacts.typed); [reflexivity | vm_compute; discriminate].
Defined.

Lemma signECC_returns_written_witness :
  Typed (L := Ref.lib) /\
  Vec.size (ECDSA_written (L := Ref.lib) 3 Ref.hello Ref.s1) = 71 /\
  signECC (L := Ref.lib) 3 Ref.hello Ref.s1
  = Ok (ECDSA_written (L := Ref.lib) 3 Ref.hello Ref.s1)
      (after_ECDSA_sign (L := Ref.lib) 3 Ref.hello Ref.s1).
Proof.
  split; [exact RefFacts.typed |]. split; [reflexivity |].
  apply (signECC_returns_written (L := Ref.lib) 3 Ref.hello Ref.s1
           RefFacts.typed); [reflexivity | vm_compute; discriminate].
Defined.

(** ** The statuses the program drops *)

Section Blind.

Context {L : OpenSSL}.

(** Two sequences agree when their steps agree. *)
Lemma bind_ext {A B} (m m' : M A) (k k' : A -> M B) (s : State World) :
  (forall s0, m s0 = m' s0) -> (forall a s0, k a s0 = k' a s0) ->
  bind m k s = bind m' k' s.
Proof.
  intros Hm Hk. unfold bind. rewrite Hm.
  destruct (m' s); [apply Hk | reflexivity].
Qed.

Variable c : Statuses World.

Lemma generateRSAKeys_blind (s : State World) :
  generateRSAKeys (L := with_statuses L c) s = generateRSAKeys s.
Proof.
  unfold generateRSAKeys.
  rewrite !(run_call (L := with_statuses L c)), !run_call.
  reflexivity.
Qed.

Lemma generateAES128Key_blind (s : State World) :
  generateAES128Key (L := with_statuses L c) s = generateAES128Key s.
Proof.
  unfold generateAES128Key.
  assert (M16 : 16 <= Vec.max_size) by (vm_compute; discriminate).
  rewrite (run_lift_ok (L := with_statuses L c) _ _ _ _ (make_ok 16 x00 M16)).
  rewrite (run_lift_ok _ _ _ _ (make_ok 16 x00 M16)).
  cbv zeta.
  rewrite (run_call (L := with_statuses L c)), run_call.
  reflexivity.
Qed.

Lemma encryptAES_blind (key message : bytes) (s : State World) :
  encryptAES (L := with_statuses L c) key message s
  = encryptAES key message s.
Proof.
  unfold encryptAES.
  assert (M16 : AES_BLOCK_SIZE <= Vec.max_size) by (vm_compute; discriminate).
  rewrite (run_lift_ok (L := with_statuses L c) _ _ _ _
             (make_ok AES_BLOCK_SIZE x00 M16)).
  rewrite (run_lift_ok _ _ _ _ (make_ok AES_BLOCK_SIZE x00 M16)).
  cbv zeta.
  rewrite (run_call (L := with_statuses L c)), run_call.
  reflexivity.
Qed.

Lemma generateECCKeys_blind (s : State World) :
  generateECCKeys (L := with_statuses L c) s = generateECCKeys s.
Proof.
  unfold generateECCKeys.
  rewrite !(run_call (L := with_statuses L c)), !run_call.
  reflexivity.
Qed.

Lemma signECC_blind (key : ptr) (data : bytes) (s : State World) :
  signECC (L := with_statuses L c) key data s = signECC key data s.
Proof.
  rewrite (signECC_run (L := with_statuses L c)), signECC_run.
  reflexivity.
Qed.

(** X7.  The statuses [BN_set_word], [RSA_generate_key_ex], [RAND_bytes],
    [AES_set_encrypt_key], [EC_KEY_generate_key] and [ECDSA_sign] return
    change nothing: with any other statuses in their place
    [generateRSAKeys], [generateAES128Key], [encryptAES],
    [generateECCKeys] and the whole of [main] give the same result and
    leave the same state, so a key generation or a random generator that
    reports failure goes unnoticed. *)
Theorem statuses_are_dropped (key message : bytes) (s : State World) :
  generateRSAKeys (L := with_statuses L c) s = generateRSAKeys s /\
  generateAES128Key (L := with_statuses L c) s = generateAES128Key s /\
  encryptAES (L := with_statuses L c) key message s
  = encryptAES key message s /\
  generateECCKeys (L := with_statuses L c) s = generateECCKeys s /\
  main (L := with_statuses L c) s = main s.
Proof.
  split; [apply generateRSAKeys_blind |].
  split; [apply generateAES128Key_blind |].
  split; [apply encryptAES_blind |].
  split; [apply generateECCKeys_blind |].
  unfold main.
  apply (bind_ext (generateRSAKeys (L := with_statuses L c)));
    [apply generateRSAKeys_blind |]. intros rsaKey s1. cbv zeta.
  apply (bind_ext (encryptRSA rsaKey _)); [reflexivity |].
  intros encrypted s2.
  apply (bind_ext (emit _)); [reflexivity |]. intros _ s3.
  apply (bind_ext (generateAES128Key (L := with_statuses L c)));
    [apply generateAES128Key_blind |]. intros aesKey s4.
  apply (bind_ext (encryptAES (L := with_statuses L c) aesKey _));
    [apply encryptAES_blind |]. intros encryptedAes s5.
  apply (bind_ext (emit _)); [reflexivity |]. intros _ s6.
  apply (bind_ext (generateECCKeys (L := with_statuses L c)));
    [apply generateECCKeys_blind |]. intros eccKey s7.
  apply (bind_ext (signECC (L := with_statuses L c) eccKey _));
    [apply signECC_blind |]. intros signature s8.
  reflexivity.
Qed.

End Blind.

(** ** More on [generateRSAKeys] and [main] *)

Section MoreDriver.

Context {L : OpenSSL}.

(** Under its prototypes [signECC] returns. *)
Lemma signECC_returns (key : ptr) (data : bytes) (s : State World) :
  Typed ->
  exists sig : bytes,
    signECC key data s = Ok sig (after_ECDSA_sign key data s) /\
    Vec.size sig = stored_sigLen key data s.
Proof.
  intros Hty.
  pose proof (ECDSA_sign_uint Hty 0 data (to_int (Vec.size data))
                (to_uint (ECDSA_size key (world s))) key (world s)) as Hsl.
  fold (stored_sigLen key data s) in Hsl.
  pose proof (to_uint_range (ECDSA_size key (world s))) as Hn.
  rewrite signECC_run, make_ok by (unfold Vec.max_size; lia).
  destruct (resize_ok
              (Vec.write_at 0 (ECDSA_written key data s)
                 (repeat x00 (Z.to_nat (to_uint (ECDSA_size key (world s))))))
              (stored_sigLen key data s)) as [sig Hsig].
  { unfold is_uint, Vec.max_size in *. lia. }
  exists sig. split; [now apply lift_inr |].
  apply resize_size in Hsig; [assumption | unfold is_uint in Hsl; lia].
Qed.

(** What [main] does once [encryptRSA] has returned: it returns too.
    [s3] is the state after [generateAES128Key], [s4] the one in which
    [signECC] is called. *)
Lemma main_rest (rsa bne : ptr) (enc : bytes) (s s1 s2 : State World) :
  Typed ->
  trace s1 = trace s ++ [EvRSA_new rsa; EvBN_new bne;
                         EvBN_set_word bne RSA_F4;
                         EvRSA_generate_key_ex rsa 2048 bne;
                         EvBN_free bne] ->
  generateRSAKeys s = Ok rsa s1 ->
  encryptRSA rsa
    (list_byte_of_string "Secret message for RSA encryption") s1
  = Ok enc s2 ->
  trace s2 = trace s1 ++ [EvRSA_size rsa; EvRSA_public_encrypt rsa 33] ->
  exists (aesKey : bytes) (ecc : ptr) (s3 s4 s' : State World),
    generateAES128Key
      (printed "RSA encrypted data (length: " (Vec.size enc) s2)
    = Ok aesKey s3 /\
    generateECCKeys
      (printed "AES encrypted data (length: " 64
         (after_encryptAES
            (list_byte_of_string "Secret message for AES encryption") s3))
    = Ok ecc s4 /\
    main s = Ok 0 s' /\
    trace s' = trace s
               ++ main_events rsa bne ecc (Vec.size enc)
                    (stored_sigLen ecc
                       (list_byte_of_string "Message for ECC signing") s4).
Proof.
  intros Hty Ht1 Hrun1 Hrun2 Ht2. unfold main.
  rewrite (bind_ok _ _ _ _ _ Hrun1). cbv zeta.
  rewrite (bind_ok _ _ _ _ _ Hrun2), run_emit.
  fold (printed "RSA encrypted data (length: " (Vec.size enc) s2).
  destruct (generateAES128Key_trace
              (printed "RSA encrypted data (length: " (Vec.size enc) s2))
    as (aesKey & s3 & Hrun3 & Ht3).
  rewrite (bind_ok _ _ _ _ _ Hrun3).
  rewrite (bind_ok _ _ _ _ _
             (encryptAES_run aesKey
                (list_byte_of_string "Secret message for AES encryption") s3
                eq_refl)).
  rewrite run_emit.
  rewrite write_at_size, size_app, size_repeat, fresh_iv_size.
  change (AES_BLOCK_SIZE
          + Z.of_nat
              (Z.to_nat
                 (paddedLength
                    (Vec.size
                       (list_byte_of_string
                          "Secret message for AES encryption")))))
    with 64.
  fold (printed "AES encrypted data (length: " 64
          (after_encryptAES
             (list_byte_of_string "Secret message for AES encryption") s3)).
  destruct (generateECCKeys_trace
              (printed "AES encrypted data (length: " 64
                 (after_encryptAES
                    (list_byte_of_string "Secret message for AES encryption")
                    s3)))
    as (ecc & s4 & Hrun4 & Ht4).
  rewrite (bind_ok _ _ _ _ _ Hrun4).
  destruct (signECC_returns ecc
              (list_byte_of_string "Message for ECC signing") s4 Hty)
    as (sig & Hrun5 & Hsig).
  rewrite (bind_ok _ _ _ _ _ Hrun5), run_emit, !run_call. unfold ret.
  exists aesKey, ecc, s3, s4. eexists.
  split; [exact Hrun3 |]. split; [exact Hrun4 |]. split; [reflexivity |].
  cbn [trace fst snd after_ECDSA_sign]. rewrite Ht4.
  cbn [trace after_encryptAES printed].
  rewrite Ht3. cbn [trace printed]. rewrite Ht2, Ht1, Hsig.
  rewrite <- !app_assoc. reflexivity.
Qed.

(** X9.  A run of [main] that ends in an exception leaves the RSA key
    unreleased.  With a library that keeps to its prototypes the exception
    is the [std::length_error] of [encryptRSA]; by then the RSA handle has
    been created, the elliptic-curve handle has not, and nothing has been
    released. *)
Theorem main_throw_leaks (s s' : State World) (e : exn) :
  Typed -> main s = Throw e s' ->
  exists (rsa bne : ptr) (new : list event),
    e = length_error /\
    trace s' = trace s ++ new /\
    (new = [EvRSA_new rsa; EvBN_new bne; EvBN_set_word bne RSA_F4;
            EvRSA_generate_key_ex rsa 2048 bne; EvBN_free bne;
            EvRSA_size rsa] \/
     new = [EvRSA_new rsa; EvBN_new bne; EvBN_set_word bne RSA_F4;
            EvRSA_generate_key_ex rsa 2048 bne; EvBN_free bne;
            EvRSA_size rsa; EvRSA_public_encrypt rsa 33]) /\
    filter is_create new = [EvRSA_new rsa] /\
    filter is_release new = [].
Proof.
  intros Hty Hthrow.
  destruct (generateRSAKeys_trace s) as (rsa & bne & s1 & Hrun1 & Ht1).
  pose proof (encryptRSA_run rsa
                (list_byte_of_string "Secret message for RSA encryption") s1)
    as Hrun2.
  destruct (Vec.make (to_size_t (RSA_size rsa (world s1))) x00)
    as [[] | buf].
  - unfold main in Hthrow.
    rewrite (bind_ok _ _ _ _ _ Hrun1) in Hthrow. cbv zeta in Hthrow.
    rewrite (bind_throw _ _ _ _ _ Hrun2) in Hthrow.
    inversion Hthrow; subst e s'.
    exists rsa, bne. eexists. split; [reflexivity |].
    split; [cbn [trace after_RSA_size]; rewrite Ht1, <- app_assoc;
            reflexivity |].
    split; [left; reflexivity |]. split; reflexivity.
  - unfold lift in Hrun2.
    destruct (Vec.resize _ _) as [[] | enc].
    + unfold main in Hthrow.
      rewrite (bind_ok _ _ _ _ _ Hrun1) in Hthrow. cbv zeta in Hthrow.
      rewrite (bind_throw _ _ _ _ _ Hrun2) in Hthrow.
      inversion Hthrow; subst e s'.
      exists rsa, bne. eexists. split; [reflexivity |].
      split; [cbn [trace after_RSA_public_encrypt];
              rewrite Ht1, <- app_assoc; reflexivity |].
      split; [right; reflexivity |]. split; reflexivity.
    + destruct (main_rest rsa bne enc s s1 _ Hty Ht1 Hrun1 Hrun2 eq_refl)
        as (aesKey & ecc & s3 & s4 & s'' & _ & _ & Hok & _).
      rewrite Hok in Hthrow. discriminate.
Qed.

(** The key [generateRSAKeys] makes when the generation succeeds. *)
Lemma generateRSAKeys_key (s : State World) :
  RSA_contract -> keygen_code s = 1 ->
  exists (rsa bne : ptr) (s1 : State World),
    generateRSAKeys s = Ok rsa s1 /\
    trace s1 = trace s ++ [EvRSA_new rsa; EvBN_new bne;
                           EvBN_set_word bne RSA_F4;
                           EvRSA_generate_key_ex rsa 2048 bne;
                           EvBN_free bne] /\
    RSA_size rsa (world s1) = 256.
Proof.
  intros Hrsa. unfold keygen_code, generateRSAKeys. intros Hcode.
  rewrite !run_call. cbn [fst snd world trace].
  destruct (RSA_new (world s)) as [rsa w1]. cbn [fst snd] in *.
  destruct (BN_new w1) as [bne w2]. cbn [fst snd] in *.
  destruct (BN_set_word bne RSA_F4 w2) as [c w3]. cbn [fst snd] in *.
  unfold ret. do 3 eexists. split; [reflexivity |]. cbn [world trace].
  split; [rewrite <- !app_assoc; reflexivity |].
  rewrite (BN_free_keeps_size Hrsa).
  now rewrite (RSA_generate_key_ex_size Hrsa) by assumption.
Qed.

(** X10.  With a library that keeps its promises, a key generation that
    succeeds and an encryption of the first message that succeeds, [main]
    runs through: the key comes from [generateRSAKeys], the ciphertext of
    [encryptRSA] has 256 bytes, [s4] is the state in which [signECC] is
    called, and [main] returns 0 after the calls of [main_events], having
    printed 256 for the RSA ciphertext, 64 for the AES output and, for the
    signature, the length [ECDSA_sign] stored in [sigLen] in [s4], and
    having released both keys. *)
Theorem main_with_working_library (s : State World) :
  Typed -> RSA_contract -> keygen_code s = 1 ->
  (forall (rsa : ptr) (s1 : State World),
     generateRSAKeys s = Ok rsa s1 ->
     encryptedLength rsa
       (list_byte_of_string "Secret message for RSA encryption") s1 <> -1) ->
  exists (rsa bne ecc : ptr) (enc aesKey : bytes)
         (s1 s2 s3 s4 s' : State World),
    generateRSAKeys s = Ok rsa s1 /\
    encryptRSA rsa
      (list_byte_of_string "Secret message for RSA encryption") s1
    = Ok enc s2 /\
    Vec.size enc = 256 /\
    generateAES128Key (printed "RSA encrypted data (length: " 256 s2)
    = Ok aesKey s3 /\
    generateECCKeys
      (printed "AES encrypted data (length: " 64
         (after_encryptAES
            (list_byte_of_string "Secret message for AES encryption") s3))
    = Ok ecc s4 /\
    main s = Ok 0 s' /\
    trace s' = trace s
               ++ main_events rsa bne ecc 256
                    (stored_sigLen ecc
                       (list_byte_of_string "Message for ECC signing") s4).
Proof.
  intros Hty Hrsa Hcode Henc.
  destruct (generateRSAKeys_key s Hrsa Hcode)
    as (rsa & bne & s1 & Hrun1 & Ht1 & Hsize).
  specialize (Henc rsa s1 Hrun1).
  set (msg := list_byte_of_string "Secret message for RSA encryption") in *.
  assert (E : encryptedLength rsa msg s1 = 256).
  { unfold encryptedLength in *.
    destruct (RSA_public_encrypt_returns Hrsa (to_int (Vec.size msg)) msg rsa
                RSA_PKCS1_PADDING (world s1)) as [Hf | Hs];
      [contradiction | now rewrite Hs]. }
  destruct (encryptRSA_returns rsa msg s1) as (enc & Hrun2 & Hout).
  - apply (RSA_size_int Hty).
  - rewrite Hsize. discriminate.
  - apply (RSA_public_encrypt_int Hty).
  - rewrite E. discriminate.
  - rewrite E in Hout.
    destruct (main_rest rsa bne enc s s1 _ Hty Ht1 Hrun1 Hrun2 eq_refl)
      as (aesKey & ecc & s3 & s4 & s' & Hrun3 & Hrun4 & Hok & Ht).
    rewrite Hout in Hrun3, Ht.
    exists rsa, bne, ecc, enc, aesKey, s1. do 4 eexists.
    repeat split; eassumption.
Qed.

(** C7.  In [main] each key handle is created, next handed to its key
    generation and used, and, on a run that returns, released exactly
    once: the only releases are [RSA_free] of the RSA handle and
    [EC_KEY_free] of the elliptic-curve handle, the last two calls before
    the return.  The return is not the only exit.  [main] returns exactly
    when, for the key of [generateRSAKeys], neither [RSA_size] nor
    [RSA_public_encrypt] returns a negative value; otherwise the
    [std::length_error] of [encryptRSA] ends [main], with the RSA handle
    created and not released, and the elliptic-curve handle not yet
    created. *)
Theorem main_handle_lifecycle (s : State World) :
  Typed ->
  exists (rsa bne : ptr) (s1 : State World),
    generateRSAKeys s = Ok rsa s1 /\
    ((0 <= RSA_size rsa (world s1) /\
      0 <= encryptedLength rsa
             (list_byte_of_string "Secret message for RSA encryption") s1 /\
      exists (ecc : ptr) (n1 n3 : Z) (s' : State World),
        main s = Ok 0 s' /\
        trace s' = trace s ++ main_events rsa bne ecc n1 n3 /\
        filter is_create (main_events rsa bne ecc n1 n3)
        = [EvRSA_new rsa; EvEC_KEY_new_by_curve_name ecc] /\
        filter is_release (main_events rsa bne ecc n1 n3)
        = [EvRSA_free rsa; EvEC_KEY_free ecc] /\
        exists body : list event,
          main_events rsa bne ecc n1 n3
          = body ++ [EvRSA_free rsa; EvEC_KEY_free ecc]) \/
     ((RSA_size rsa (world s1) < 0 \/
       encryptedLength rsa
         (list_byte_of_string "Secret message for RSA encryption") s1 < 0) /\
      exists (s' : State World) (new : list event),
        main s = Throw length_error s' /\
        trace s' = trace s ++ new /\
        filter is_create new = [EvRSA_new rsa] /\
        filter is_release new = [])).
Proof.
  intros Hty.
  destruct (generateRSAKeys_trace s) as (rsa & bne & s1 & Hrun1 & Ht1).
  exists rsa, bne, s1. split; [exact Hrun1 |].
  set (msg := list_byte_of_string "Secret message for RSA encryption").
  pose proof (RSA_size_int Hty rsa (world s1)) as Hn.
  pose proof (RSA_public_encrypt_int Hty (to_int (Vec.size msg)) msg rsa
                RSA_PKCS1_PADDING (world s1)) as Hlen.
  fold (encryptedLength rsa msg s1) in Hlen.
  assert (Hthrow : forall st new0,
             encryptRSA rsa msg s1 = Throw length_error st ->
             trace st = trace s1 ++ new0 ->
             filter is_create new0 = [] -> filter is_release new0 = [] ->
             exists (s' : State World) (new : list event),
               main s = Throw length_error s' /\
               trace s' = trace s ++ new /\
               filter is_create new = [EvRSA_new rsa] /\
               filter is_release new = []).
  { intros st new0 Hrun2 Ht2 Hc Hr. unfold main.
    rewrite (bind_ok _ _ _ _ _ Hrun1). cbv zeta. fold msg.
    rewrite (bind_throw _ _ _ _ _ Hrun2).
    do 2 eexists. split; [reflexivity |].
    rewrite Ht2, Ht1, <- app_assoc. split; [reflexivity |].
    rewrite !filter_app, Hc, Hr. split; reflexivity. }
  destruct (Z.lt_ge_cases (RSA_size rsa (world s1)) 0) as [Hneg | H0].
  { right. split; [left; assumption |].
    apply (Hthrow (after_RSA_size rsa s1) [EvRSA_size rsa]);
      [now apply encryptRSA_no_buffer | reflexivity ..]. }
  destruct (Z.lt_ge_cases (encryptedLength rsa msg s1) 0) as [Hlneg | Hl0].
  { right. split; [right; assumption |].
    apply (Hthrow (after_RSA_public_encrypt rsa msg s1)
             [EvRSA_size rsa;
              EvRSA_public_encrypt rsa (to_int (Vec.size msg))]);
      [| reflexivity ..].
    rewrite encryptRSA_run, encryptRSA_buffer by assumption.
    apply lift_inl, resize_refused. now apply to_size_t_negative. }
  left. split; [assumption |]. split; [assumption |].
  destruct (encryptRSA_returns rsa msg s1 Hn H0 Hlen Hl0)
    as (enc & Hrun2 & _).
  destruct (main_rest rsa bne enc s s1 _ Hty Ht1 Hrun1 Hrun2 eq_refl)
    as (aesKey & ecc & s3 & s4 & s' & _ & _ & Hok & Ht).
  exists ecc. do 2 eexists. exists s'.
  split; [exact Hok |]. split; [exact Ht |].
  split; [reflexivity |]. split; [reflexivity |].
  match goal with
  | |- exists body, ?l = _ => exists (firstn 18 l)
  end.
  reflexivity.
Qed.

End MoreDriver.

Lemma refusing_typed : Typed (L := refusing).
Proof.
  split; try apply RefFacts.typed.
  intros flen m r p w. unfold is_int. cbn. lia.
Qed.

Lemma main_throw_leaks_witness :
  Typed (L := refusing) /\
  exists s' : State World,
    main (L := refusing) Ref.s0 = Throw length_error s' /\
    exists (rsa : ptr) (new : list event),
      trace s' = new /\
      filter is_create new = [EvRSA_new rsa] /\
      filter is_release new = [].
Proof.
  split; [exact refusing_typed |].
  destruct (main (L := refusing) Ref.s0) as [r st | e st] eqn:Hrun.
  - vm_compute in Hrun. discriminate.
  - destruct (main_throw_leaks (L := refusing) Ref.s0 st e refusing_typed
                Hrun) as (rsa & bne & new & -> & Ht & _ & Hc & Hr).
    exists st. split; [reflexivity |]. exists rsa, new.
    split; [exact Ht |]. split; assumption.
Defined.

Lemma main_with_working_library_witness :
  Typed (L := Ref.lib) /\ RSA_contract (L := Ref.lib) /\
  keygen_code (L := Ref.lib) Ref.s0 = 1 /\
  exists (rsa bne ecc : ptr) (s4 s' : State Ref.lib_state),
    main (L := Ref.lib) Ref.s0 = Ok 0 s' /\
    trace s'
    = main_events (L := Ref.lib) rsa bne ecc 256
        (stored_sigLen (L := Ref.lib) ecc
           (list_byte_of_string "Message for ECC signing") s4).
Proof.
  split; [exact RefFacts.typed |]. split; [exact RefFacts.rsa_contract |].
  split; [reflexivity |].
  destruct (main_with_working_library (L := Ref.lib) Ref.s0 RefFacts.typed
              RefFacts.rsa_contract eq_refl)
    as (rsa & bne & ecc & enc & aesKey & s1 & s2 & s3 & s4 & s'
        & _ & _ & _ & _ & _ & Hrun & Ht).
  - intros rsa s1 Hgen. vm_compute in Hgen. inversion Hgen; subst.
    vm_compute. discriminate.
  - exists rsa, bne, ecc, s4, s'. split; [exact Hrun | exact Ht].
Defined.

(** An instance: on the executable library [main] returns from [Ref.s0],
    both keys released. *)
Lemma main_handle_lifecycle_witness :
  Typed (L := Ref.lib) /\
  exists (rsa bne ecc : ptr) (n1 n3 : Z) (s' : State Ref.lib_state),
    main (L := Ref.lib) Ref.s0 = Ok 0 s' /\
    trace s' = main_events (L := Ref.lib) rsa bne ecc n1 n3 /\
    filter is_release (trace s') = [EvRSA_free rsa; EvEC_KEY_free ecc].
Proof.
  split; [exact RefFacts.typed |].
  destruct (main_handle_lifecycle (L := Ref.lib) Ref.s0 RefFacts.typed)
    as (rsa & bne & s1 & _
        & [(_ & _ & ecc & n1 & n3 & s' & Hrun & Ht & _ & Hrel & _)
          | (_ & s' & new & Hrun & _)]).
  - exists rsa, bne, ecc, n1, n3, s'.
    split; [exact Hrun |]. split; [exact Ht |].
    exact (eq_trans (f_equal (filter is_release) Ht) Hrel).
  - exfalso. vm_compute in Hrun. discriminate.
Defined.

(** With an encryption that fails, [main] leaves by the exception of
    [encryptRSA]: handle 1, the RSA key, has been created and is not
    released. *)
Lemma main_exit_by_exception :
  exists s' : State Ref.lib_state,
    main (L := refusing) Ref.s0 = Throw length_error s' /\
    filter is_create (trace s') = [EvRSA_new 1] /\
    filter is_release (trace s') = [].
Proof.
  eexists. split; [vm_compute; reflexivity |]. split; reflexivity.
Qed.
